(** * socket.io-sqs-emitter: the emitter and its broadcast operator

    A shallow embedding of [lib/index.ts].  The module builds control
    messages for a cluster of Socket.IO servers and hands them to an SNS
    client.  JavaScript values are a small inductive type, [Set<string>]
    instances and flag objects live in a store (they are objects with
    identity, and [Set.prototype.add] mutates), and every method that
    allocates, logs or calls the SNS client is a computation in a
    state-and-exception monad over that store. *)

From Stdlib Require Import ZArith String Ascii List Lia.
From stdpp Require Import gmap strings list fin_maps pretty.

Set Warnings "-register-all,-clear-no-such-hyp".

Open Scope Z_scope.
Open Scope string_scope.
Open Scope list_scope.

(** ** JavaScript values *)

(** The values that can be passed as event arguments.  Numbers are
    restricted to integers; a function is known only by an identity. *)
Inductive JSValue : Type :=
| JSUndefined
| JSNull
| JSBoolean (b : bool)
| JSNumber (n : Z)
| JSString (s : string)
| JSBuffer (bytes : list Byte.byte)
| JSFunction (id : nat)
| JSError (message : string)
| JSArray (items : list JSValue)
| JSObject (fields : list (string * JSValue)).

(** A plain object: its own enumerable properties in insertion order. *)
Definition JSObj : Type := list (string * JSValue).

(** [typeof v] *)
Definition typeof (v : JSValue) : string :=
  match v with
  | JSUndefined => "undefined"
  | JSBoolean _ => "boolean"
  | JSNumber _ => "number"
  | JSString _ => "string"
  | JSFunction _ => "function"
  | JSNull | JSBuffer _ | JSError _ | JSArray _ | JSObject _ => "object"
  end.

(** The condition of [if (v)]. *)
Definition truthy (v : JSValue) : bool :=
  match v with
  | JSUndefined | JSNull => false
  | JSBoolean b => b
  | JSNumber n => negb (Z.eqb n 0)
  | JSString s => negb (String.eqb s EmptyString)
  | _ => true
  end.

(** [typeof v === "function"] *)
Definition is_function (v : JSValue) : bool := String.eqb (typeof v) "function".

(** [args[args.length - 1]]: the last element, [undefined] for the empty
    array (index [-1] is not a property of an array). *)
Definition last_arg (args : list JSValue) : JSValue := List.last args JSUndefined.

(** The value is a function or holds one, in an array or in an object. *)
Fixpoint has_function (v : JSValue) : bool :=
  match v with
  | JSFunction _ => true
  | JSArray items => existsb has_function items
  | JSObject fields => existsb (fun kv => has_function (snd kv)) fields
  | _ => false
  end.

(** Property read [o.k] on a plain object. *)
Fixpoint obj_get (k : string) (o : JSObj) : option JSValue :=
  match o with
  | [] => None
  | (k', v) :: o' => if String.eqb k k' then Some v else obj_get k o'
  end.

(** Property write [o.k = v]: an existing key keeps its position. *)
Fixpoint obj_set (k : string) (v : JSValue) (o : JSObj) : JSObj :=
  match o with
  | [] => [(k, v)]
  | (k', v') :: o' =>
      if String.eqb k k' then (k, v) :: o' else (k', v') :: obj_set k v o'
  end.

(** [Object.assign(target, ...sources)] on plain objects. *)
Definition Object_assign (target : JSObj) (sources : list JSObj) : JSObj :=
  fold_left (fun t src => fold_left (fun t' kv => obj_set kv.1 kv.2 t') src t)
            sources target.

(** [String(n)] for an integer that a number holds exactly and prints in
    full: a magnitude of at most 2^53 (from 10^21 on JavaScript prints an
    exponent). *)
Definition String_of_number (n : Z) : string := pretty n.

(** ** [Set<string>]: insertion-ordered, without duplicates *)

Definition Set_has (x : string) (s : list string) : bool := bool_decide (x ∈ s).

(** [s.add(x)] *)
Definition Set_add (x : string) (s : list string) : list string :=
  if Set_has x s then s else s ++ [x].

(** [new Set(iterable)]: every element is added in turn. *)
Definition Set_of (xs : list string) : list string :=
  fold_left (fun s x => Set_add x s) xs [].

(** ** Constants of the module *)

Definition UID : string := "emitter".

(** The local enumeration [RequestType]. *)
Module RequestType.

Inductive t : Type :=
| SOCKETS
| ALL_ROOMS
| REMOTE_JOIN
| REMOTE_LEAVE
| REMOTE_DISCONNECT
| REMOTE_FETCH
| SERVER_SIDE_EMIT.

Definition value (x : t) : Z :=
  match x with
  | SOCKETS => 0
  | ALL_ROOMS => 1
  | REMOTE_JOIN => 2
  | REMOTE_LEAVE => 3
  | REMOTE_DISCONNECT => 4
  | REMOTE_FETCH => 5
  | SERVER_SIDE_EMIT => 6
  end.

End RequestType.

Definition dquote : string := String "034"%char EmptyString.

Definition RESERVED_EVENTS : list string :=
  Set_of ["connect"; "connect_error"; "disconnect"; "disconnecting";
          "newListener"; "removeListener"].

(** ** Imported enumerations

    [MessageType] comes from the package socket.io-adapter and
    [PacketType] from socket.io-parser.  The module only names their
    members, so the development is parametric in their numbering. *)

Record MessageTypeEnum : Type := {
  BROADCAST : Z;
  SOCKETS_JOIN : Z;
  SOCKETS_LEAVE : Z;
  DISCONNECT_SOCKETS : Z;
  SERVER_SIDE_EMIT : Z
}.

Record PacketTypeEnum : Type := { EVENT : Z }.

(** The numbering published by socket.io-adapter (its cluster adapter
    counts from [INITIAL_HEARTBEAT = 1]: heartbeat 2, broadcast 3, sockets
    join 4, sockets leave 5, disconnect sockets 6, fetch sockets 7 and its
    response 8, server-side emit 9). *)
Definition socket_io_adapter_MessageType : MessageTypeEnum :=
  {| BROADCAST := 3;
     SOCKETS_JOIN := 4;
     SOCKETS_LEAVE := 5;
     DISCONNECT_SOCKETS := 6;
     SERVER_SIDE_EMIT := 9 |}.

(** The numbering published by socket.io-parser
    (connect 0, disconnect 1, event 2, ...). *)
Definition socket_io_parser_PacketType : PacketTypeEnum := {| EVENT := 2 |}.

(** ** The SNS client *)

Record MessageAttributeValue : Type := {
  DataType : string;
  StringValue : option string;
  BinaryValue : option (list Byte.byte)
}.

(** The input of a [PublishCommand]; [MessageAttributes] is the record
    [Record<string, MessageAttributeValue>], a map keyed by name. *)
Record PublishCommand : Type := {
  TopicArn : string;
  Message : string;
  MessageAttributes : gmap string MessageAttributeValue
}.

(** What one call of [client.send] does: it returns a promise that is
    fulfilled or rejected, or it throws before returning. *)
Inductive SendOutcome : Type :=
| SendResolves
| SendRejects (e : JSValue)
| SendThrows (e : JSValue).

(** The client is external: its behaviour on a command may depend on the
    commands it has been given before. *)
Record SNS : Type := {
  send : list PublishCommand -> PublishCommand -> SendOutcome
}.

(** ** The store and the monad *)

Definition loc : Type := nat.

Record World : Type := {
  set_heap : gmap loc (list string);   (* the Set<string> instances *)
  obj_heap : gmap loc JSObj;           (* the flag objects *)
  sns_calls : list PublishCommand;     (* calls of client.send, oldest first *)
  console : list JSValue;              (* console.log *)
  debug_log : list (Z * string)        (* debug(...) *)
}.

Definition empty_world : World :=
  {| set_heap := ∅; obj_heap := ∅; sns_calls := []; console := []; debug_log := [] |}.

Inductive Completion (A : Type) : Type :=
| Normal (a : A)
| Throw (e : JSValue).
Arguments Normal {A} a.
Arguments Throw {A} e.

(** A settled promise. *)
Inductive Promise (A : Type) : Type :=
| Fulfilled (a : A)
| Rejected (e : JSValue).
Arguments Fulfilled {A} a.
Arguments Rejected {A} e.

Definition M (A : Type) : Type := World -> Completion A * World.

Definition ret {A} (a : A) : M A := fun w => (Normal a, w).

Definition throw {A} (e : JSValue) : M A := fun w => (Throw e, w).

Definition bind {A B} (m : M A) (k : A -> M B) : M B :=
  fun w =>
    match m w with
    | (Normal a, w') => k a w'
    | (Throw e, w') => (Throw e, w')
    end.

Notation "'let*' x ':=' m 'in' k" := (bind m (fun x => k))
  (at level 10, x name, m at level 100, k at level 200, only parsing).

(** [try { body } catch (e) { handler }] *)
Definition try_catch {A} (body : M A) (handler : JSValue -> M A) : M A :=
  fun w =>
    match body w with
    | (Normal a, w') => (Normal a, w')
    | (Throw e, w') => handler e w'
    end.

(** [p.then(f)] *)
Definition promise_then {A B} (p : Promise A) (f : A -> M B) : M (Promise B) :=
  match p with
  | Fulfilled a =>
      fun w =>
        match f a w with
        | (Normal b, w') => (Normal (Fulfilled b), w')
        | (Throw e, w') => (Normal (Rejected e), w')
        end
  | Rejected e => ret (Rejected e)
  end.

(** [p.catch(f)] *)
Definition promise_catch {A} (p : Promise A) (f : JSValue -> M A) : M (Promise A) :=
  match p with
  | Fulfilled a => ret (Fulfilled a)
  | Rejected e =>
      fun w =>
        match f e w with
        | (Normal b, w') => (Normal (Fulfilled b), w')
        | (Throw e', w') => (Normal (Rejected e'), w')
        end
  end.

(** [await p], and the settling of an async function that returns [p]. *)
Definition await {A} (p : Promise A) : M A :=
  match p with
  | Fulfilled a => ret a
  | Rejected e => throw e
  end.

(** Updates of one field of the world. *)
Definition update_set_heap (f : gmap loc (list string) -> gmap loc (list string))
    (w : World) : World :=
  {| set_heap := f (set_heap w); obj_heap := obj_heap w; sns_calls := sns_calls w;
     console := console w; debug_log := debug_log w |}.

Definition update_obj_heap (f : gmap loc JSObj -> gmap loc JSObj) (w : World) : World :=
  {| set_heap := set_heap w; obj_heap := f (obj_heap w); sns_calls := sns_calls w;
     console := console w; debug_log := debug_log w |}.

Definition add_call (cmd : PublishCommand) (w : World) : World :=
  {| set_heap := set_heap w; obj_heap := obj_heap w; sns_calls := sns_calls w ++ [cmd];
     console := console w; debug_log := debug_log w |}.

Definition add_console (v : JSValue) (w : World) : World :=
  {| set_heap := set_heap w; obj_heap := obj_heap w; sns_calls := sns_calls w;
     console := console w ++ [v]; debug_log := debug_log w |}.

Definition add_debug (type : Z) (topic : string) (w : World) : World :=
  {| set_heap := set_heap w; obj_heap := obj_heap w; sns_calls := sns_calls w;
     console := console w; debug_log := debug_log w ++ [(type, topic)] |}.

Definition console_log (v : JSValue) : M unit :=
  fun w => (Normal tt, add_console v w).

(** [debug("published message %d to SNS topic %s", type, topic)] *)
Definition debug (type : Z) (topic : string) : M unit :=
  fun w => (Normal tt, add_debug type topic w).

(** [client.send(cmd)]: the call is made, then it throws or returns a promise. *)
Definition client_send (client : SNS) (cmd : PublishCommand) : M (Promise unit) :=
  fun w =>
    match send client (sns_calls w) cmd with
    | SendResolves => (Normal (Fulfilled tt), add_call cmd w)
    | SendRejects e => (Normal (Rejected e), add_call cmd w)
    | SendThrows e => (Throw e, add_call cmd w)
    end.

(** [new Set(iterable)] *)
Definition new_Set (xs : list string) : M loc :=
  fun w =>
    let l := fresh (dom (set_heap w)) in
    (Normal l, update_set_heap (insert l (Set_of xs)) w).

(** [[...s]]: the elements of the set at [l], in insertion order. *)
Definition Set_elements (l : loc) : M (list string) :=
  fun w => (Normal (default [] (set_heap w !! l)), w).

(** [s.add(x)] on the set at [l]. *)
Definition Set_add_at (l : loc) (x : string) : M unit :=
  fun w => (Normal tt, update_set_heap (alter (Set_add x) l) w).

(** [xs.forEach(f)] *)
Fixpoint forEach {A} (xs : list A) (f : A -> M unit) : M unit :=
  match xs with
  | [] => ret tt
  | x :: xs' => let* _ := f x in forEach xs' f
  end.

(** A new plain object with the given properties. *)
Definition new_object (o : JSObj) : M loc :=
  fun w =>
    let l := fresh (dom (obj_heap w)) in
    (Normal l, update_obj_heap (insert l o) w).

(** The properties of the object at [l]. *)
Definition object_fields (l : loc) : M JSObj :=
  fun w => (Normal (default [] (obj_heap w !! l)), w).

(** [Object.assign(target, ...sources)] where [target] is the object at [l];
    the target is mutated and returned. *)
Definition Object_assign_at (l : loc) (sources : list JSObj) : M loc :=
  fun w =>
    (Normal l, update_obj_heap (alter (fun o => Object_assign o sources) l) w).

(** ** [publish] *)

(** A parameter of type [string | undefined] as a value. *)
Definition string_or_undefined (o : option string) : JSValue :=
  from_option JSString JSUndefined o.

Section Publish.

(** [encode] of notepack.io, an external codec: it returns the bytes of a
    value, or throws. *)
Variable encode : JSValue -> Completion (list Byte.byte).

(** The call [encode(data)]. *)
Definition call_encode (data : JSValue) : M (list Byte.byte) :=
  fun w => (encode data, w).

(** An async function.  Inside [try] it builds the attributes, calls the
    codec and the client and returns the promise of the client with its
    handlers; [catch] logs what was thrown on the way and the function
    then returns [undefined].  The promise returned from [try] is not
    awaited there: it settles the promise of the function, which every
    caller awaits at once, so a rejection of it is a [Throw] of the
    computation. *)
Definition publish (client : SNS) (topic : string) (type : Z)
    (nsp uid : option string) (data : JSValue) : M unit :=
  let* returned :=
    try_catch
      (let messageAttributes : gmap string MessageAttributeValue := ∅ in
       let messageAttributes :=
         if truthy (string_or_undefined nsp)
         then <["nsp" := {| DataType := "String"; StringValue := nsp;
                            BinaryValue := None |}]> messageAttributes
         else messageAttributes in
       let messageAttributes :=
         if truthy (JSString UID)
         then <["uid" := {| DataType := "String"; StringValue := Some UID;
                            BinaryValue := None |}]> messageAttributes
         else messageAttributes in
       let* messageAttributes :=
         if truthy data
         then let* bytes := call_encode data in
              ret (<["data" := {| DataType := "Binary"; StringValue := None;
                                  BinaryValue := Some bytes |}]> messageAttributes)
         else ret messageAttributes in
       let* p := client_send client
                   {| TopicArn := topic;
                      Message := String_of_number type;
                      MessageAttributes := messageAttributes |} in
       let* p := promise_then p (fun _ => debug type topic) in
       promise_catch p console_log)
      (fun e => let* _ := console_log e in ret (Fulfilled tt)) in
  await returned.

End Publish.

(** ** Shared types *)

Record BroadcastOptions : Type := {
  opt_nsp : string;
  opt_topicArn : string
}.

(** An argument of type [string | string[]]. *)
Inductive RoomArg : Type :=
| OneRoom (room : string)
| ManyRooms (rooms : list string).

(** [Array.isArray(rooms) ? rooms : [rooms]] *)
Definition room_list (rooms : RoomArg) : list string :=
  match rooms with
  | ManyRooms rs => rs
  | OneRoom r => [r]
  end.

Definition strings (xs : list string) : JSValue := JSArray (JSString <$> xs).

(** ** class [BroadcastOperator] *)

Record BroadcastOperator : Type := {
  op_snsClient : SNS;
  op_broadcastOptions : BroadcastOptions;
  rooms : loc;        (* Set<string> *)
  exceptRooms : loc;  (* Set<string> *)
  flags : loc         (* BroadcastFlags *)
}.

Module BroadcastOperator.
Section Methods.

Variable encode : JSValue -> Completion (list Byte.byte).
Variable MessageType : MessageTypeEnum.
Variable PacketType : PacketTypeEnum.

(** The constructor; an omitted argument takes its default
    ([new Set<string>()], [new Set<string>()], [{}]). *)
Definition new (snsClient : SNS) (broadcastOptions : BroadcastOptions)
    (rooms exceptRooms flags : option loc) : M BroadcastOperator :=
  let* rooms := from_option ret (new_Set []) rooms in
  let* exceptRooms := from_option ret (new_Set []) exceptRooms in
  let* flags := from_option ret (new_object []) flags in
  ret {| op_snsClient := snsClient; op_broadcastOptions := broadcastOptions;
         rooms := rooms; exceptRooms := exceptRooms; flags := flags |}.

Definition to (this : BroadcastOperator) (room : RoomArg) : M BroadcastOperator :=
  let* old := Set_elements (rooms this) in
  let* rooms' := new_Set old in
  let* _ := match room with
            | ManyRooms rs => forEach rs (fun r => Set_add_at rooms' r)
            | OneRoom r => Set_add_at rooms' r
            end in
  new (op_snsClient this) (op_broadcastOptions this)
      (Some rooms') (Some (exceptRooms this)) (Some (flags this)).

Definition in_ (this : BroadcastOperator) (room : RoomArg) : M BroadcastOperator :=
  to this room.

Definition except (this : BroadcastOperator) (room : RoomArg) : M BroadcastOperator :=
  let* old := Set_elements (exceptRooms this) in
  let* exceptRooms' := new_Set old in
  let* _ := match room with
            | ManyRooms rs => forEach rs (fun r => Set_add_at exceptRooms' r)
            | OneRoom r => Set_add_at exceptRooms' r
            end in
  new (op_snsClient this) (op_broadcastOptions this)
      (Some (rooms this)) (Some exceptRooms') (Some (flags this)).

Definition compress (this : BroadcastOperator) (compress : bool) : M BroadcastOperator :=
  let* target := new_object [] in
  let* cur := object_fields (flags this) in
  let* flags' := Object_assign_at target [cur; [("compress", JSBoolean compress)]] in
  new (op_snsClient this) (op_broadcastOptions this)
      (Some (rooms this)) (Some (exceptRooms this)) (Some flags').

Definition volatile (this : BroadcastOperator) : M BroadcastOperator :=
  let* target := new_object [] in
  let* cur := object_fields (flags this) in
  let* flags' := Object_assign_at target [cur; [("volatile", JSBoolean true)]] in
  new (op_snsClient this) (op_broadcastOptions this)
      (Some (rooms this)) (Some (exceptRooms this)) (Some flags').

Definition reserved_event_message (ev : string) : string :=
  (dquote ++ ev ++ dquote ++ " is a reserved event name")%string.

(** The object literals passed to [publish] as [data].  The sets are
    spread into arrays ([[...this.rooms]]); the flag object is included
    as it is at the time of the call. *)
Definition emit_data (this : BroadcastOperator) (ev : string) (args : list JSValue)
    : M JSValue :=
  let data := JSString ev :: args in
  let packet := JSObject [("type", JSNumber (EVENT PacketType));
                          ("data", JSArray data);
                          ("nsp", JSString (opt_nsp (op_broadcastOptions this)))] in
  let* rs := Set_elements (rooms this) in
  let* fl := object_fields (flags this) in
  let* ex := Set_elements (exceptRooms this) in
  let opts := JSObject [("rooms", strings rs);
                        ("flags", JSObject fl);
                        ("except", strings ex)] in
  ret (JSObject [("packet", packet); ("opts", opts)]).

Definition sockets_data (this : BroadcastOperator) (rooms_arg : RoomArg) : M JSValue :=
  let* rs := Set_elements (rooms this) in
  let* ex := Set_elements (exceptRooms this) in
  ret (JSObject [("opts", JSObject [("rooms", strings rs); ("except", strings ex)]);
                 ("rooms", strings (room_list rooms_arg))]).

Definition disconnect_data (this : BroadcastOperator) (close : bool) : M JSValue :=
  let* rs := Set_elements (rooms this) in
  let* ex := Set_elements (exceptRooms this) in
  ret (JSObject [("opts", JSObject [("rooms", strings rs); ("except", strings ex)]);
                 ("close", JSBoolean close)]).

Definition emit (this : BroadcastOperator) (ev : string) (args : list JSValue) : M bool :=
  if Set_has ev RESERVED_EVENTS
  then throw (JSError (reserved_event_message ev))
  else
    let* data := emit_data this ev args in
    let* _ := publish encode (op_snsClient this)
                (opt_topicArn (op_broadcastOptions this))
                (BROADCAST MessageType)
                (Some (opt_nsp (op_broadcastOptions this))) (Some UID)
                data in
    ret true.

Definition socketsJoin (this : BroadcastOperator) (rooms_arg : RoomArg) : M unit :=
  let* data := sockets_data this rooms_arg in
  publish encode (op_snsClient this) (opt_topicArn (op_broadcastOptions this))
          (SOCKETS_JOIN MessageType)
          (Some (opt_nsp (op_broadcastOptions this))) (Some UID)
          data.

Definition socketsLeave (this : BroadcastOperator) (rooms_arg : RoomArg) : M unit :=
  let* data := sockets_data this rooms_arg in
  publish encode (op_snsClient this) (opt_topicArn (op_broadcastOptions this))
          (SOCKETS_LEAVE MessageType)
          (Some (opt_nsp (op_broadcastOptions this))) (Some UID)
          data.

(** [close] defaults to [false] when omitted. *)
Definition disconnectSockets (this : BroadcastOperator) (close : option bool) : M unit :=
  let close := default false close in
  let* data := disconnect_data this close in
  publish encode (op_snsClient this) (opt_topicArn (op_broadcastOptions this))
          (DISCONNECT_SOCKETS MessageType)
          (Some (opt_nsp (op_broadcastOptions this))) (Some UID)
          data.

End Methods.
End BroadcastOperator.

(** ** class [Emitter]

    The private field [opts] is declared and never assigned; it is left
    out.  All fields are read-only. *)

Record Emitter : Type := {
  snsClient : SNS;
  topicArn : string;
  nsp : string;
  broadcastOptions : BroadcastOptions
}.

Module Emitter.
Section Methods.

Variable encode : JSValue -> Completion (list Byte.byte).
Variable MessageType : MessageTypeEnum.
Variable PacketType : PacketTypeEnum.

(** The constructor; [nsp] defaults to ["/"] and is stored as given. *)
Definition new (snsClient : SNS) (topicArn : string) (nsp : option string) : Emitter :=
  let nsp := default "/" nsp in
  {| snsClient := snsClient; topicArn := topicArn; nsp := nsp;
     broadcastOptions := {| opt_nsp := nsp; opt_topicArn := topicArn |} |}.

(** [nsp[0] !== "/"]; [nsp[0]] is [undefined] for the empty string.  The
    byte of ["/"] starts no other character, so the test on the first
    byte is the test on the first code unit. *)
Definition first_is_not_slash (nsp : string) : bool :=
  match nsp with
  | EmptyString => true
  | String c _ => negb (Ascii.eqb c "/"%char)
  end.

Definition of_ (this : Emitter) (nsp : string) : Emitter :=
  new (snsClient this) (topicArn this)
      (Some ((if first_is_not_slash nsp then "/" else EmptyString) ++ nsp)%string).

Definition emit (this : Emitter) (ev : string) (args : list JSValue) : M bool :=
  let* op := BroadcastOperator.new (snsClient this) (broadcastOptions this) None None None in
  BroadcastOperator.emit encode MessageType PacketType op ev args.

Definition to (this : Emitter) (room : RoomArg) : M BroadcastOperator :=
  let* op := BroadcastOperator.new (snsClient this) (broadcastOptions this) None None None in
  BroadcastOperator.to op room.

Definition in_ (this : Emitter) (room : RoomArg) : M BroadcastOperator :=
  let* op := BroadcastOperator.new (snsClient this) (broadcastOptions this) None None None in
  BroadcastOperator.in_ op room.

Definition except (this : Emitter) (room : RoomArg) : M BroadcastOperator :=
  let* op := BroadcastOperator.new (snsClient this) (broadcastOptions this) None None None in
  BroadcastOperator.except op room.

Definition volatile (this : Emitter) : M BroadcastOperator :=
  let* op := BroadcastOperator.new (snsClient this) (broadcastOptions this) None None None in
  BroadcastOperator.volatile op.

Definition compress (this : Emitter) (compress : bool) : M BroadcastOperator :=
  let* op := BroadcastOperator.new (snsClient this) (broadcastOptions this) None None None in
  BroadcastOperator.compress op compress.

Definition socketsJoin (this : Emitter) (rooms : RoomArg) : M unit :=
  let* op := BroadcastOperator.new (snsClient this) (broadcastOptions this) None None None in
  BroadcastOperator.socketsJoin encode MessageType op rooms.

Definition socketsLeave (this : Emitter) (rooms : RoomArg) : M unit :=
  let* op := BroadcastOperator.new (snsClient this) (broadcastOptions this) None None None in
  BroadcastOperator.socketsLeave encode MessageType op rooms.

Definition disconnectSockets (this : Emitter) (close : option bool) : M unit :=
  let* op := BroadcastOperator.new (snsClient this) (broadcastOptions this) None None None in
  BroadcastOperator.disconnectSockets encode MessageType op (Some (default false close)).

(** The object literal [{ packet: args }]. *)
Definition serverSideEmit_data (args : list JSValue) : JSValue :=
  JSObject [("packet", JSArray args)].

Definition serverSideEmit (this : Emitter) (args : list JSValue) : M unit :=
  let withAck := is_function (last_arg args) in
  if withAck
  then throw (JSError "Acknowledgements are not supported")
  else
    publish encode (snsClient this) (opt_topicArn (broadcastOptions this))
            (SERVER_SIDE_EMIT MessageType)
            (Some (opt_nsp (broadcastOptions this))) (Some UID)
            (serverSideEmit_data args).

End Methods.
End Emitter.


(** ** Vocabulary of the statements *)

(** The attribute map [publish] builds for a namespace and a payload. *)
Definition string_attribute (s : string) : MessageAttributeValue :=
  {| DataType := "String"; StringValue := Some s; BinaryValue := None |}.

Definition binary_attribute (bs : list Byte.byte) : MessageAttributeValue :=
  {| DataType := "Binary"; StringValue := None; BinaryValue := Some bs |}.

(** The effect of one [publish] on the world: the call is recorded, and
    the outcome goes to the debug log or to the console. *)
Definition after_send (client : SNS) (cmd : PublishCommand) (type : Z) (w : World) : World :=
  match send client (sns_calls w) cmd with
  | SendResolves => add_debug type (TopicArn cmd) (add_call cmd w)
  | SendRejects e | SendThrows e => add_console e (add_call cmd w)
  end.

(** The error a call of [client.send] ends with, if any. *)
Definition send_error (o : SendOutcome) : option JSValue :=
  match o with
  | SendResolves => None
  | SendRejects e | SendThrows e => Some e
  end.

(** The contents of the set, and of the flag object, at a location. *)
Definition set_at (w : World) (l : loc) : list string := default [] (set_heap w !! l).
Definition object_at (w : World) (l : loc) : JSObj := default [] (obj_heap w !! l).

(** The operator's three components are allocated in the world. *)
Definition valid (w : World) (op : BroadcastOperator) : Prop :=
  rooms op ∈ dom (set_heap w) ∧ exceptRooms op ∈ dom (set_heap w) ∧
  flags op ∈ dom (obj_heap w).

(** Every object of [w] is in [w'] with the same contents. *)
Definition preserved (w w' : World) : Prop :=
  (∀ l s, set_heap w !! l = Some s → set_heap w' !! l = Some s) ∧
  (∀ l o, obj_heap w !! l = Some o → obj_heap w' !! l = Some o).

(** Adding the rooms of a list to a set, one after the other. *)
Definition add_all (rs : list string) (s : list string) : list string :=
  fold_left (fun s x => Set_add x s) rs s.

(** The operator a selector returns: the receiver with new components. *)
Definition with_rooms (op : BroadcastOperator) (l : loc) : BroadcastOperator :=
  {| op_snsClient := op_snsClient op; op_broadcastOptions := op_broadcastOptions op;
     rooms := l; exceptRooms := exceptRooms op; flags := flags op |}.

Definition with_exceptRooms (op : BroadcastOperator) (l : loc) : BroadcastOperator :=
  {| op_snsClient := op_snsClient op; op_broadcastOptions := op_broadcastOptions op;
     rooms := rooms op; exceptRooms := l; flags := flags op |}.

Definition with_flags (op : BroadcastOperator) (l : loc) : BroadcastOperator :=
  {| op_snsClient := op_snsClient op; op_broadcastOptions := op_broadcastOptions op;
     rooms := rooms op; exceptRooms := exceptRooms op; flags := l |}.

(** The room set and the exclusion set of the operator a computation ends
    with, read in the world it ends in. *)
Definition room_list_of (res : Completion BroadcastOperator * World) : option (list string) :=
  match res.1 with
  | Normal op => Some (set_at res.2 (rooms op))
  | Throw _ => None
  end.

Definition except_list_of (res : Completion BroadcastOperator * World) : option (list string) :=
  match res.1 with
  | Normal op => Some (set_at res.2 (exceptRooms op))
  | Throw _ => None
  end.

Definition as_set (l : list string) : gset string := list_to_set l.

(** The receiver [op] has in [w'] the sets and the flags it had in [w]. *)
Definition receiver_unchanged (w : World) (op : BroadcastOperator) (w' : World) : Prop :=
  set_at w' (rooms op) = set_at w (rooms op) ∧
  set_at w' (exceptRooms op) = set_at w (exceptRooms op) ∧
  object_at w' (flags op) = object_at w (flags op).

(** A selector call on [op] in [w] that ended in [res] returned an operator
    other than [op], left the sets and flags of [op] and every other
    object of [w] as they were, called nothing of the client, and the
    operator and world it ended with satisfy [Q]. *)
Definition returns_new (w : World) (op : BroadcastOperator)
    (res : Completion BroadcastOperator * World)
    (Q : BroadcastOperator -> World -> Prop) : Prop :=
  ∃ op', res.1 = Normal op' ∧ op' ≠ op ∧
         receiver_unchanged w op res.2 ∧ preserved w res.2 ∧
         sns_calls res.2 = sns_calls w ∧ valid res.2 op' ∧ Q op' res.2.

(** [args] ends in a function: it is some list followed by a function. *)
Definition ends_in_function (args : list JSValue) : bool :=
  match reverse args with
  | JSFunction _ :: _ => true
  | _ => false
  end.

(** The rooms of a list in the order of their first mention, each once. *)
Fixpoint first_mentions (l : list string) : list string :=
  match l with
  | [] => []
  | x :: l' => x :: filter (λ y, y ≠ x) (first_mentions l')
  end.

(** The string starts with the separator ["/"]. *)
Definition starts_with_slash (s : string) : bool :=
  match s with
  | EmptyString => false
  | String c _ => Ascii.eqb c "/"%char
  end.

(** The names [RESERVED_EVENTS] is built from. *)
Definition reserved_names : list string :=
  ["connect"; "connect_error"; "disconnect"; "disconnecting";
   "newListener"; "removeListener"].

(** From [w] to [w'] the client was called with the commands [cmds]. *)
Definition sent_between (w w' : World) (cmds : list PublishCommand) : Prop :=
  sns_calls w' = sns_calls w ++ cmds.

(** The attributes [nsp] and [uid] of a command sent for namespace [ns]. *)
Definition carries_namespace (ns : string) (cmd : PublishCommand) : Prop :=
  (ns = EmptyString → MessageAttributes cmd !! "nsp" = None) ∧
  (ns ≠ EmptyString → MessageAttributes cmd !! "nsp" = Some (string_attribute ns)) ∧
  MessageAttributes cmd !! "uid" = Some (string_attribute "emitter").

(** The calls a client of the module can chain on an emitter: selectors,
    then one terminal method. *)
Inductive Selector : Type :=
| STo (room : RoomArg)
| SIn (room : RoomArg)
| SExcept (room : RoomArg)
| SCompress (b : bool)
| SVolatile.

Inductive Terminal : Type :=
| TEmit (ev : string) (args : list JSValue)
| TSocketsJoin (rooms : RoomArg)
| TSocketsLeave (rooms : RoomArg)
| TDisconnectSockets (close : option bool).

Definition select (op : BroadcastOperator) (s : Selector) : M BroadcastOperator :=
  match s with
  | STo room => BroadcastOperator.to op room
  | SIn room => BroadcastOperator.in_ op room
  | SExcept room => BroadcastOperator.except op room
  | SCompress b => BroadcastOperator.compress op b
  | SVolatile => BroadcastOperator.volatile op
  end.

Fixpoint chain (op : BroadcastOperator) (ss : list Selector) : M BroadcastOperator :=
  match ss with
  | [] => ret op
  | s :: ss' => let* op' := select op s in chain op' ss'
  end.

(** The terminal throws before publishing. *)
Definition terminal_fails (t : Terminal) : bool :=
  match t with
  | TEmit ev _ => Set_has ev RESERVED_EVENTS
  | _ => false
  end.

(** Sample clients and a sample codec, to run the methods on. *)
Definition resolving_client : SNS := {| send := fun _ _ => SendResolves |}.
Definition rejecting_client : SNS :=
  {| send := fun _ _ => SendRejects (JSError "network down") |}.
Definition throwing_client : SNS :=
  {| send := fun _ _ => SendThrows (JSError "bad input") |}.

(** A sample codec: like notepack it cannot encode a function and throws
    "Could not encode"; of any other value it keeps the size. *)
Definition sample_encode (v : JSValue) : Completion (list Byte.byte) :=
  if has_function v
  then Throw (JSError "Could not encode")
  else Normal match v with
              | JSArray xs => repeat Byte.x01 (length xs)
              | JSObject fs => repeat Byte.x02 (length fs)
              | _ => [Byte.x00]
              end.

(** A sample emitter, and the operator and world of
    [emitter.to("room1").except("room2").volatile]. *)
Definition sample_topic : string := "arn:aws:sns:eu-central-1:000000000000:socket-io".

Definition sample_emitter : Emitter := Emitter.new rejecting_client sample_topic None.

Definition sample_run : Completion BroadcastOperator * World :=
  (let* a := Emitter.to sample_emitter (OneRoom "room1") in
   let* b := BroadcastOperator.except a (OneRoom "room2") in
   BroadcastOperator.volatile b) empty_world.

Definition sample_world : World := sample_run.2.

Definition sample_operator : BroadcastOperator :=
  match sample_run.1 with
  | Normal op => op
  | Throw _ =>
      {| op_snsClient := rejecting_client;
         op_broadcastOptions := broadcastOptions sample_emitter;
         rooms := 0%nat; exceptRooms := 0%nat; flags := 0%nat |}
  end.

Definition hello_args : list JSValue :=
  [JSString "hello"; JSString "world"; JSNumber 1; JSString "2"].

(** ** What a chain of selectors asks for

    The rooms, the exclusions and the flags of a chain, read off the
    chain alone, without a store. *)

Definition rooms_given (s : Selector) : list string :=
  match s with
  | STo room | SIn room => room_list room
  | _ => []
  end.

Definition except_given (s : Selector) : list string :=
  match s with
  | SExcept room => room_list room
  | _ => []
  end.

Definition set_flag (o : JSObj) (s : Selector) : JSObj :=
  match s with
  | SCompress b => obj_set "compress" (JSBoolean b) o
  | SVolatile => obj_set "volatile" (JSBoolean true) o
  | _ => o
  end.

Definition selected_rooms (ss : list Selector) : list string :=
  add_all (flat_map rooms_given ss) [].

Definition selected_except (ss : list Selector) : list string :=
  add_all (flat_map except_given ss) [].

Definition selected_flags (ss : list Selector) : JSObj :=
  fold_left set_flag ss [].

(** The component a selector works on. *)
Inductive Component : Type := CRooms | CExcept | CFlags.

Definition component (s : Selector) : Component :=
  match s with
  | STo _ | SIn _ => CRooms
  | SExcept _ => CExcept
  | SCompress _ | SVolatile => CFlags
  end.

(** The names of the properties of an object. *)
Definition keys (o : JSObj) : list string := o.*1.

(** The operator exists in the world, its sets hold no room twice and its
    flag object no property twice. *)
Definition well_formed (w : World) (op : BroadcastOperator) : Prop :=
  valid w op ∧ NoDup (set_at w (rooms op)) ∧ NoDup (set_at w (exceptRooms op)) ∧
  NoDup (keys (object_at w (flags op))).

(** [emitter.sel1(..). ... .seln(..)]: the operator of a chain on an emitter. *)
Definition operator_of (e : Emitter) (ss : list Selector) : M BroadcastOperator :=
  let* op := BroadcastOperator.new (snsClient e) (broadcastOptions e) None None None in
  chain op ss.

(** ** The helper [createPartialDone] of the tests

    The closure returned by [createPartialDone(count, done, callback)]
    keeps the counter [i]; a call of the closure is a step on the counter
    that may call [done] and then [callback].  [count] is an integer. *)

Inductive TestEvent : Type := DoneCalled | CallbackCalled.

Record PartialDone : Type := {
  pd_i : Z;
  pd_events : list TestEvent
}.

Definition createPartialDone : PartialDone := {| pd_i := 0; pd_events := [] |}.

(** One call of the closure; [callback] tells whether one was given. *)
Definition partialDone (count : Z) (callback : bool) (st : PartialDone) : PartialDone :=
  let i := (pd_i st + 1)%Z in
  if Z.eqb i count
  then {| pd_i := i;
          pd_events := pd_events st ++ [DoneCalled]
                         ++ (if callback then [CallbackCalled] else []) |}
  else {| pd_i := i; pd_events := pd_events st |}.

(** * Properties *)

Section Properties.

Variable encode : JSValue -> Completion (list Byte.byte).
Variable MessageType : MessageTypeEnum.
Variable PacketType : PacketTypeEnum.

(** What [publish] puts under [data]: nothing for a falsy payload, else
    the bytes the codec returns; or the codec throws. *)
Definition encoded (data : JSValue) : Completion (option (list Byte.byte)) :=
  if truthy data
  then match encode data with
       | Normal bytes => Normal (Some bytes)
       | Throw e => Throw e
       end
  else Normal None.

(** The codec does not throw on the payload. *)
Definition accepted (data : JSValue) : bool :=
  match encoded data with
  | Normal _ => true
  | Throw _ => false
  end.

(** The command [publish] hands to the client. *)
Definition published (topic : string) (type : Z) (nsp : string)
    (bytes : option (list Byte.byte)) : PublishCommand :=
  {| TopicArn := topic;
     Message := String_of_number type;
     MessageAttributes :=
       let m0 : gmap string MessageAttributeValue :=
         if String.eqb nsp EmptyString then ∅ else {[ "nsp" := string_attribute nsp ]} in
       let m1 := <["uid" := string_attribute UID]> m0 in
       match bytes with
       | Some bs => <["data" := binary_attribute bs]> m1
       | None => m1
       end |}.

(** The commands [publish] hands to the client for a payload: one, and
    none when the codec throws. *)
Definition commands_for (topic : string) (type : Z) (nsp : string) (data : JSValue)
    : list PublishCommand :=
  match encoded data with
  | Normal bytes => [published topic type nsp bytes]
  | Throw _ => []
  end.

(** The world after [publish]: the client was called, or the throw of the
    codec is on the console. *)
Definition publish_effect (client : SNS) (topic : string) (type : Z) (nsp : string)
    (data : JSValue) (w : World) : World :=
  match encoded data with
  | Normal bytes => after_send client (published topic type nsp bytes) type w
  | Throw e => add_console e w
  end.

(** From [w] to [w'] the client was given one command when the codec
    accepts [data] and none when it does not, every one with
    discriminator [type]. *)
Definition sends_typed (w w' : World) (type : Z) (data : JSValue) : Prop :=
  ∃ cmds, sent_between w w' cmds ∧
          length cmds = (if accepted data then 1 else 0)%nat ∧
          Forall (λ cmd, Message cmd = String_of_number type) cmds.

(** From [w] to [w'] either the codec accepted [data], the client was
    called once and the error the call ended with, if any, went to the
    console; or the codec threw, the client was not called and what the
    codec threw went to the console. *)
Definition swallowed (client : SNS) (w w' : World) (data : JSValue) : Prop :=
  match encoded data with
  | Normal _ =>
      ∃ cmd, sent_between w w' [cmd] ∧
             console w' = console w ++ match send_error (send client (sns_calls w) cmd) with
                                       | Some e => [e]
                                       | None => []
                                       end
  | Throw e => sent_between w w' [] ∧ console w' = console w ++ [e]
  end.

(** A computation started in [w] ended in [res]: normally, with value [a],
    and whatever went wrong in publishing [data] was swallowed. *)
Definition settles {A} (w : World) (res : Completion A * World) (client : SNS) (a : A)
    (data : JSValue) : Prop :=
  res.1 = Normal a ∧ swallowed client w res.2 data.

Definition fire (op : BroadcastOperator) (t : Terminal) : M unit :=
  match t with
  | TEmit ev args =>
      let* _ := BroadcastOperator.emit encode MessageType PacketType op ev args in ret tt
  | TSocketsJoin rooms => BroadcastOperator.socketsJoin encode MessageType op rooms
  | TSocketsLeave rooms => BroadcastOperator.socketsLeave encode MessageType op rooms
  | TDisconnectSockets close =>
      BroadcastOperator.disconnectSockets encode MessageType op close
  end.

(** [emitter.sel1(..). ... .seln(..).terminal(..)] *)
Definition call (e : Emitter) (ss : list Selector) (t : Terminal) : M unit :=
  let* op := BroadcastOperator.new (snsClient e) (broadcastOptions e) None None None in
  let* op' := chain op ss in
  fire op' t.

(** The payloads the terminal methods assemble for [op] in [w]. *)
Definition targeting (w : World) (op : BroadcastOperator) : JSValue :=
  JSObject [("rooms", strings (set_at w (rooms op)));
            ("except", strings (set_at w (exceptRooms op)))].

Definition emit_payload (w : World) (op : BroadcastOperator) (ev : string)
    (args : list JSValue) : JSValue :=
  JSObject
    [("packet", JSObject [("type", JSNumber (EVENT PacketType));
                          ("data", JSArray (JSString ev :: args));
                          ("nsp", JSString (opt_nsp (op_broadcastOptions op)))]);
     ("opts", JSObject [("rooms", strings (set_at w (rooms op)));
                        ("flags", JSObject (object_at w (flags op)));
                        ("except", strings (set_at w (exceptRooms op)))])].

Definition sockets_payload (w : World) (op : BroadcastOperator) (rooms_arg : RoomArg)
    : JSValue :=
  JSObject [("opts", targeting w op); ("rooms", strings (room_list rooms_arg))].

Definition disconnect_payload (w : World) (op : BroadcastOperator) (close : bool)
    : JSValue :=
  JSObject [("opts", targeting w op); ("close", JSBoolean close)].

(** The discriminator and the payload of a terminal method. *)
Definition terminal_type (t : Terminal) : Z :=
  match t with
  | TEmit _ _ => BROADCAST MessageType
  | TSocketsJoin _ => SOCKETS_JOIN MessageType
  | TSocketsLeave _ => SOCKETS_LEAVE MessageType
  | TDisconnectSockets _ => DISCONNECT_SOCKETS MessageType
  end.

Definition terminal_payload (w : World) (op : BroadcastOperator) (t : Terminal) : JSValue :=
  match t with
  | TEmit ev args => emit_payload w op ev args
  | TSocketsJoin rooms => sockets_payload w op rooms
  | TSocketsLeave rooms => sockets_payload w op rooms
  | TDisconnectSockets close => disconnect_payload w op (default false close)
  end.

(** The payload of a terminal method for given rooms, exclusions and flags. *)
Definition payload_for (ns : string) (rs ex : list string) (fl : JSObj) (t : Terminal)
    : JSValue :=
  match t with
  | TEmit ev args =>
      JSObject
        [("packet", JSObject [("type", JSNumber (EVENT PacketType));
                              ("data", JSArray (JSString ev :: args));
                              ("nsp", JSString ns)]);
         ("opts", JSObject [("rooms", strings rs); ("flags", JSObject fl);
                            ("except", strings ex)])]
  | TSocketsJoin rooms | TSocketsLeave rooms =>
      JSObject [("opts", JSObject [("rooms", strings rs); ("except", strings ex)]);
                ("rooms", strings (room_list rooms))]
  | TDisconnectSockets close =>
      JSObject [("opts", JSObject [("rooms", strings rs); ("except", strings ex)]);
                ("close", JSBoolean (default false close))]
  end.

(** The payload and the commands of a terminal method after a chain of
    selectors on an emitter, read off the emitter and the chain. *)
Definition payload_of (e : Emitter) (ss : list Selector) (t : Terminal) : JSValue :=
  payload_for (opt_nsp (broadcastOptions e)) (selected_rooms ss)
              (selected_except ss) (selected_flags ss) t.

Definition commands_of (e : Emitter) (ss : list Selector) (t : Terminal)
    : list PublishCommand :=
  commands_for (opt_topicArn (broadcastOptions e)) (terminal_type t)
               (opt_nsp (broadcastOptions e)) (payload_of e ss t).

(** *** [publish] *)

Lemma publish_run client topic type nsp uid data w :
  publish encode client topic type (Some nsp) uid data w
  = (Normal tt, publish_effect client topic type nsp data w).
Proof.
  unfold publish, try_catch, bind, call_encode, client_send, publish_effect,
    encoded, after_send, published.
  simpl.
  destruct (truthy data), (String.eqb nsp EmptyString); simpl;
    try destruct (encode data); simpl; try reflexivity;
    destruct (send client _ _); reflexivity.
Qed.

Lemma publish_undefined_run client topic type uid data w :
  publish encode client topic type None uid data w
  = (Normal tt, publish_effect client topic type EmptyString data w).
Proof.
  unfold publish, try_catch, bind, call_encode, client_send, publish_effect,
    encoded, after_send, published.
  simpl.
  destruct (truthy data); simpl;
    try destruct (encode data); simpl; try reflexivity;
    destruct (send client _ _); reflexivity.
Qed.

Lemma after_send_calls client cmd type w :
  sns_calls (after_send client cmd type w) = sns_calls w ++ [cmd].
Proof. unfold after_send. by destruct (send client _ _). Qed.

Lemma after_send_console client cmd type w :
  console (after_send client cmd type w)
  = console w ++ match send_error (send client (sns_calls w) cmd) with
                 | Some e => [e]
                 | None => []
                 end.
Proof.
  unfold after_send. destruct (send client _ _); simpl; [|done..].
  by rewrite app_nil_r.
Qed.

Lemma publish_effect_calls client topic type nsp data w :
  sns_calls (publish_effect client topic type nsp data w)
  = sns_calls w ++ commands_for topic type nsp data.
Proof.
  unfold publish_effect, commands_for. destruct (encoded data).
  - apply after_send_calls.
  - simpl. by rewrite app_nil_r.
Qed.

Lemma commands_for_length topic type nsp data :
  length (commands_for topic type nsp data) = (if accepted data then 1 else 0)%nat.
Proof. unfold commands_for, accepted. by destruct (encoded data). Qed.

Lemma commands_for_type topic type nsp data :
  Forall (λ cmd, Message cmd = String_of_number type) (commands_for topic type nsp data).
Proof.
  unfold commands_for. destruct (encoded data); [|constructor].
  by apply Forall_singleton.
Qed.

Lemma publish_effect_sends_typed client topic type nsp data w :
  sends_typed w (publish_effect client topic type nsp data w) type data.
Proof.
  exists (commands_for topic type nsp data). split_and!.
  - apply publish_effect_calls.
  - apply commands_for_length.
  - apply commands_for_type.
Qed.

Lemma publish_effect_swallowed client topic type nsp data w :
  swallowed client w (publish_effect client topic type nsp data w) data.
Proof.
  unfold swallowed, publish_effect. destruct (encoded data) as [bytes|e].
  - eexists. split; [apply after_send_calls|apply after_send_console].
  - split; [|done]. unfold sent_between. simpl. by rewrite app_nil_r.
Qed.

Lemma publish_effect_preserved client topic type nsp data w :
  preserved w (publish_effect client topic type nsp data w).
Proof.
  unfold publish_effect, after_send.
  destruct (encoded data); [destruct (send client _ _)|]; by split.
Qed.

Lemma encoded_object fields :
  encoded (JSObject fields)
  = match encode (JSObject fields) with
    | Normal bytes => Normal (Some bytes)
    | Throw e => Throw e
    end.
Proof. reflexivity. Qed.

Lemma published_uid topic type nsp bytes :
  MessageAttributes (published topic type nsp bytes) !! "uid"
  = Some (string_attribute "emitter").
Proof.
  unfold published; simpl. destruct bytes.
  - rewrite lookup_insert_ne by done. apply lookup_insert_eq.
  - apply lookup_insert_eq.
Qed.

Lemma published_nsp topic type nsp bytes :
  MessageAttributes (published topic type nsp bytes) !! "nsp"
  = if String.eqb nsp EmptyString then None else Some (string_attribute nsp).
Proof.
  unfold published; simpl.
  assert (∀ m : gmap string MessageAttributeValue,
    match bytes with
    | Some bs => <["data" := binary_attribute bs]> (<["uid" := string_attribute UID]> m)
    | None => <["uid" := string_attribute UID]> m
    end !! "nsp" = m !! "nsp") as ->.
  { intros m. destruct bytes; by rewrite !lookup_insert_ne. }
  destruct (String.eqb nsp EmptyString); [done|]. apply lookup_singleton_eq.
Qed.

Lemma published_data topic type nsp bytes :
  MessageAttributes (published topic type nsp (Some bytes)) !! "data"
  = Some (binary_attribute bytes).
Proof. unfold published; simpl. apply lookup_insert_eq. Qed.

Lemma published_carries_namespace topic type nsp bytes :
  carries_namespace nsp (published topic type nsp bytes).
Proof.
  split_and!; [intros Hn|intros Hn|apply published_uid]; rewrite published_nsp.
  - by rewrite Hn.
  - destruct (String.eqb_spec nsp EmptyString); done.
Qed.

Lemma commands_for_carry_namespace topic type nsp data :
  Forall (carries_namespace nsp) (commands_for topic type nsp data).
Proof.
  unfold commands_for. destruct (encoded data); [|constructor].
  apply Forall_singleton, published_carries_namespace.
Qed.

(** *** The terminal methods *)

Lemma emit_reserved_run op ev args w :
  Set_has ev RESERVED_EVENTS = true →
  BroadcastOperator.emit encode MessageType PacketType op ev args w
  = (Throw (JSError (BroadcastOperator.reserved_event_message ev)), w).
Proof. intros Hr. unfold BroadcastOperator.emit. by rewrite Hr. Qed.

Lemma emit_run op ev args w :
  Set_has ev RESERVED_EVENTS = false →
  BroadcastOperator.emit encode MessageType PacketType op ev args w
  = (Normal true,
     publish_effect (op_snsClient op) (opt_topicArn (op_broadcastOptions op))
       (BROADCAST MessageType) (opt_nsp (op_broadcastOptions op))
       (emit_payload w op ev args) w).
Proof.
  intros Hr. unfold BroadcastOperator.emit. rewrite Hr.
  unfold bind, BroadcastOperator.emit_data, bind, Set_elements, object_fields, ret.
  by rewrite publish_run.
Qed.

Lemma socketsJoin_run op rooms_arg w :
  BroadcastOperator.socketsJoin encode MessageType op rooms_arg w
  = (Normal tt,
     publish_effect (op_snsClient op) (opt_topicArn (op_broadcastOptions op))
       (SOCKETS_JOIN MessageType) (opt_nsp (op_broadcastOptions op))
       (sockets_payload w op rooms_arg) w).
Proof.
  unfold BroadcastOperator.socketsJoin, bind, BroadcastOperator.sockets_data,
    bind, Set_elements, ret.
  by rewrite publish_run.
Qed.

Lemma socketsLeave_run op rooms_arg w :
  BroadcastOperator.socketsLeave encode MessageType op rooms_arg w
  = (Normal tt,
     publish_effect (op_snsClient op) (opt_topicArn (op_broadcastOptions op))
       (SOCKETS_LEAVE MessageType) (opt_nsp (op_broadcastOptions op))
       (sockets_payload w op rooms_arg) w).
Proof.
  unfold BroadcastOperator.socketsLeave, bind, BroadcastOperator.sockets_data,
    bind, Set_elements, ret.
  by rewrite publish_run.
Qed.

Lemma disconnectSockets_run op close w :
  BroadcastOperator.disconnectSockets encode MessageType op close w
  = (Normal tt,
     publish_effect (op_snsClient op) (opt_topicArn (op_broadcastOptions op))
       (DISCONNECT_SOCKETS MessageType) (opt_nsp (op_broadcastOptions op))
       (disconnect_payload w op (default false close)) w).
Proof.
  unfold BroadcastOperator.disconnectSockets, bind, BroadcastOperator.disconnect_data,
    bind, Set_elements, ret.
  by rewrite publish_run.
Qed.

Lemma is_function_spec v : is_function v = true ↔ ∃ id, v = JSFunction id.
Proof.
  split.
  - destruct v; try discriminate. intros _. by eexists.
  - by intros [id ->].
Qed.

Lemma ends_in_function_spec args :
  ends_in_function args = true ↔ ∃ pre id, args = pre ++ [JSFunction id].
Proof.
  unfold ends_in_function. split.
  - destruct (reverse args) as [|v rest] eqn:Hrev; [done|].
    destruct v; try done. intros _. exists (reverse rest), id.
    by rewrite <- (reverse_involutive args), Hrev, reverse_cons.
  - intros (pre & id & ->). by rewrite reverse_snoc.
Qed.

Lemma last_arg_ends_in_function args :
  is_function (last_arg args) = ends_in_function args.
Proof.
  unfold last_arg, ends_in_function.
  destruct args as [|a args] using rev_ind; [done|].
  rewrite List.last_last, reverse_snoc. by destruct a.
Qed.

Lemma serverSideEmit_ack_run e args w :
  ends_in_function args = true →
  Emitter.serverSideEmit encode MessageType e args w
  = (Throw (JSError "Acknowledgements are not supported"), w).
Proof.
  intros Hf. unfold Emitter.serverSideEmit.
  by rewrite last_arg_ends_in_function, Hf.
Qed.

Lemma serverSideEmit_run e args w :
  ends_in_function args = false →
  Emitter.serverSideEmit encode MessageType e args w
  = (Normal tt,
     publish_effect (snsClient e) (opt_topicArn (broadcastOptions e))
       (SERVER_SIDE_EMIT MessageType) (opt_nsp (broadcastOptions e))
       (Emitter.serverSideEmit_data args) w).
Proof.
  intros Hf. unfold Emitter.serverSideEmit.
  rewrite last_arg_ends_in_function, Hf. apply publish_run.
Qed.

(** *** The selectors on the store *)

Lemma forEach_add_run rs l w :
  forEach rs (Set_add_at l) w = (Normal tt, update_set_heap (alter (add_all rs) l) w).
Proof.
  revert w. induction rs as [|r rs IH]; intros w.
  - simpl. unfold ret, update_set_heap. destruct w; simpl. f_equal. f_equal.
    symmetry. by apply alter_id.
  - simpl. unfold bind, Set_add_at. rewrite IH. f_equal.
    unfold update_set_heap; simpl. f_equal.
    by rewrite alter_alter_eq.
Qed.

Lemma add_room_arg_run room l w :
  match room with
  | ManyRooms rs => forEach rs (fun r => Set_add_at l r)
  | OneRoom r => Set_add_at l r
  end w
  = (Normal tt, update_set_heap (alter (add_all (room_list room)) l) w).
Proof.
  destruct room as [r|rs]; simpl.
  - reflexivity.
  - apply forEach_add_run.
Qed.

Lemma to_run op room w :
  BroadcastOperator.to op room w
  = (Normal (with_rooms op (fresh (dom (set_heap w)))),
     update_set_heap
       (insert (fresh (dom (set_heap w)))
               (add_all (room_list room) (Set_of (set_at w (rooms op))))) w).
Proof.
  unfold BroadcastOperator.to, bind, Set_elements, new_Set.
  rewrite add_room_arg_run.
  unfold BroadcastOperator.new, bind, ret, update_set_heap, with_rooms, set_at; simpl.
  by rewrite alter_insert_eq.
Qed.

Lemma except_run op room w :
  BroadcastOperator.except op room w
  = (Normal (with_exceptRooms op (fresh (dom (set_heap w)))),
     update_set_heap
       (insert (fresh (dom (set_heap w)))
               (add_all (room_list room) (Set_of (set_at w (exceptRooms op))))) w).
Proof.
  unfold BroadcastOperator.except, bind, Set_elements, new_Set.
  rewrite add_room_arg_run.
  unfold BroadcastOperator.new, bind, ret, update_set_heap, with_exceptRooms, set_at; simpl.
  by rewrite alter_insert_eq.
Qed.

Lemma lookup_after_fresh (m : gmap loc JSObj) (l : loc) :
  default [] (<[fresh (dom m) := []]> m !! l) = default [] (m !! l).
Proof.
  destruct (decide (fresh (dom m) = l)) as [<-|Hne].
  - rewrite lookup_insert_eq.
    by rewrite (not_elem_of_dom_1 m (fresh (dom m)) (is_fresh (dom m))).
  - by rewrite lookup_insert_ne.
Qed.

Lemma flag_run op k v w :
  (let* target := new_object [] in
   let* cur := object_fields (flags op) in
   let* flags' := Object_assign_at target [cur; [(k, v)]] in
   BroadcastOperator.new (op_snsClient op) (op_broadcastOptions op)
     (Some (rooms op)) (Some (exceptRooms op)) (Some flags')) w
  = (Normal (with_flags op (fresh (dom (obj_heap w)))),
     update_obj_heap
       (insert (fresh (dom (obj_heap w)))
               (Object_assign [] [object_at w (flags op); [(k, v)]])) w).
Proof.
  unfold bind, new_object, object_fields, Object_assign_at, BroadcastOperator.new,
    bind, ret, update_obj_heap, with_flags, object_at; simpl.
  rewrite alter_insert_eq, lookup_after_fresh. reflexivity.
Qed.

Lemma compress_run op b w :
  BroadcastOperator.compress op b w
  = (Normal (with_flags op (fresh (dom (obj_heap w)))),
     update_obj_heap
       (insert (fresh (dom (obj_heap w)))
               (Object_assign [] [object_at w (flags op); [("compress", JSBoolean b)]])) w).
Proof. apply flag_run. Qed.

Lemma volatile_run op w :
  BroadcastOperator.volatile op w
  = (Normal (with_flags op (fresh (dom (obj_heap w)))),
     update_obj_heap
       (insert (fresh (dom (obj_heap w)))
               (Object_assign [] [object_at w (flags op); [("volatile", JSBoolean true)]])) w).
Proof. apply flag_run. Qed.

(** *** Sets as lists *)

Lemma elem_of_Set_add x y s : x ∈ Set_add y s ↔ x ∈ s ∨ x = y.
Proof.
  unfold Set_add, Set_has. case_bool_decide as Hy.
  - split; [by left|]. intros [?| ->]; done.
  - rewrite elem_of_app, list_elem_of_singleton. done.
Qed.

Lemma elem_of_add_all x rs s : x ∈ add_all rs s ↔ x ∈ s ∨ x ∈ rs.
Proof.
  revert s. induction rs as [|r rs IH]; intros s; simpl.
  - rewrite elem_of_nil. tauto.
  - rewrite IH, elem_of_Set_add, elem_of_cons. tauto.
Qed.

Lemma NoDup_Set_add y s : NoDup s → NoDup (Set_add y s).
Proof.
  intros Hs. unfold Set_add, Set_has. case_bool_decide as Hy; [done|].
  apply NoDup_app. split_and!; [done| |apply NoDup_singleton].
  intros x Hx ->%list_elem_of_singleton. done.
Qed.

Lemma NoDup_add_all rs s : NoDup s → NoDup (add_all rs s).
Proof.
  revert s. induction rs as [|r rs IH]; intros s Hs; simpl; [done|].
  by apply IH, NoDup_Set_add.
Qed.

Lemma NoDup_Set_of xs : NoDup (Set_of xs).
Proof. apply (NoDup_add_all xs []), NoDup_nil_2. Qed.

Lemma add_all_included rs s : (∀ x, x ∈ rs → x ∈ s) → add_all rs s = s.
Proof.
  revert s. induction rs as [|r rs IH]; intros s Hin; simpl; [done|].
  assert (Set_add r s = s) as ->.
  { unfold Set_add, Set_has. rewrite bool_decide_eq_true_2; [done|].
    apply Hin. by left. }
  apply IH. intros x Hx. apply Hin. by right.
Qed.

Lemma add_all_fresh xs acc : NoDup (acc ++ xs) → add_all xs acc = acc ++ xs.
Proof.
  revert acc. induction xs as [|x xs IH]; intros acc Hnd; simpl.
  - by rewrite app_nil_r.
  - assert (Set_add x acc = acc ++ [x]) as ->.
    { unfold Set_add, Set_has. rewrite bool_decide_eq_false_2; [done|].
      apply NoDup_app in Hnd as (_ & Hd & _). intros Hx.
      apply (Hd x Hx). by left. }
    rewrite IH; rewrite <- app_assoc; done.
Qed.

Lemma Set_of_NoDup s : NoDup s → Set_of s = s.
Proof. intros Hs. unfold Set_of. by apply (add_all_fresh s []). Qed.

Lemma as_set_add_all rs s : as_set (add_all rs s) = as_set s ∪ as_set rs.
Proof.
  apply set_eq. intros x. unfold as_set.
  rewrite elem_of_union, !elem_of_list_to_set. apply elem_of_add_all.
Qed.

Lemma as_set_Set_of xs : as_set (Set_of xs) = as_set xs.
Proof.
  unfold Set_of. change (as_set (add_all xs []) = as_set xs).
  rewrite as_set_add_all. unfold as_set at 1. simpl.
  apply (left_id_L ∅ (∪)).
Qed.

(** *** The store after an allocation *)

Lemma set_at_alloc w l v :
  l ∈ dom (set_heap w) →
  set_at (update_set_heap (insert (fresh (dom (set_heap w))) v) w) l = set_at w l.
Proof.
  intros Hl. unfold set_at; simpl. rewrite lookup_insert_ne; [done|].
  intros <-. by apply (is_fresh (dom (set_heap w))).
Qed.

Lemma set_at_new w v :
  set_at (update_set_heap (insert (fresh (dom (set_heap w))) v) w)
         (fresh (dom (set_heap w))) = v.
Proof. unfold set_at; simpl. by rewrite lookup_insert_eq. Qed.

Lemma object_at_alloc w l o :
  l ∈ dom (obj_heap w) →
  object_at (update_obj_heap (insert (fresh (dom (obj_heap w))) o) w) l = object_at w l.
Proof.
  intros Hl. unfold object_at; simpl. rewrite lookup_insert_ne; [done|].
  intros <-. by apply (is_fresh (dom (obj_heap w))).
Qed.

Lemma object_at_new w o :
  object_at (update_obj_heap (insert (fresh (dom (obj_heap w))) o) w)
            (fresh (dom (obj_heap w))) = o.
Proof. unfold object_at; simpl. by rewrite lookup_insert_eq. Qed.

Lemma preserved_set_alloc w v :
  preserved w (update_set_heap (insert (fresh (dom (set_heap w))) v) w).
Proof.
  split; simpl; [|done]. intros l s Hl. rewrite lookup_insert_ne; [done|].
  intros <-. apply (is_fresh (dom (set_heap w))), elem_of_dom. by exists s.
Qed.

Lemma preserved_object_alloc w o :
  preserved w (update_obj_heap (insert (fresh (dom (obj_heap w))) o) w).
Proof.
  split; simpl; [done|]. intros l s Hl. rewrite lookup_insert_ne; [done|].
  intros <-. apply (is_fresh (dom (obj_heap w))), elem_of_dom. by exists s.
Qed.

Lemma valid_set_alloc w v l1 l2 l3 :
  let w' := update_set_heap (insert (fresh (dom (set_heap w))) v) w in
  (l1 = fresh (dom (set_heap w)) ∨ l1 ∈ dom (set_heap w)) →
  (l2 = fresh (dom (set_heap w)) ∨ l2 ∈ dom (set_heap w)) →
  l3 ∈ dom (obj_heap w) →
  l1 ∈ dom (set_heap w') ∧ l2 ∈ dom (set_heap w') ∧ l3 ∈ dom (obj_heap w').
Proof. simpl. rewrite dom_insert_L. set_solver. Qed.

Lemma returns_new_rooms w op v (Q : BroadcastOperator → World → Prop) :
  let l := fresh (dom (set_heap w)) in
  let w' := update_set_heap (insert l v) w in
  valid w op → Q (with_rooms op l) w' →
  returns_new w op (Normal (with_rooms op l), w') Q.
Proof.
  intros l w' (Hr & He & Hf) HQ.
  assert (Hfr := is_fresh (dom (set_heap w))).
  exists (with_rooms op l). simpl. split_and!; try done.
  - intros Heq. apply (f_equal rooms) in Heq. simpl in Heq. subst l.
    by rewrite Heq in Hfr.
  - split_and!; [by apply set_at_alloc|by apply set_at_alloc|done].
  - apply preserved_set_alloc.
  - apply valid_set_alloc; auto.
Qed.

Lemma returns_new_exceptRooms w op v (Q : BroadcastOperator → World → Prop) :
  let l := fresh (dom (set_heap w)) in
  let w' := update_set_heap (insert l v) w in
  valid w op → Q (with_exceptRooms op l) w' →
  returns_new w op (Normal (with_exceptRooms op l), w') Q.
Proof.
  intros l w' (Hr & He & Hf) HQ.
  assert (Hfr := is_fresh (dom (set_heap w))).
  exists (with_exceptRooms op l). simpl. split_and!; try done.
  - intros Heq. apply (f_equal exceptRooms) in Heq. simpl in Heq. subst l.
    by rewrite Heq in Hfr.
  - split_and!; [by apply set_at_alloc|by apply set_at_alloc|done].
  - apply preserved_set_alloc.
  - apply valid_set_alloc; auto.
Qed.

Lemma returns_new_flags w op o (Q : BroadcastOperator → World → Prop) :
  let l := fresh (dom (obj_heap w)) in
  let w' := update_obj_heap (insert l o) w in
  valid w op → Q (with_flags op l) w' →
  returns_new w op (Normal (with_flags op l), w') Q.
Proof.
  intros l w' (Hr & He & Hf) HQ.
  assert (Hfr := is_fresh (dom (obj_heap w))).
  exists (with_flags op l). simpl. split_and!; try done.
  - intros Heq. apply (f_equal flags) in Heq. simpl in Heq. subst l.
    by rewrite Heq in Hfr.
  - split_and!; [done|done|by apply object_at_alloc].
  - apply preserved_object_alloc.
  - unfold valid; simpl. rewrite dom_insert_L. set_solver.
Qed.

(** A new operator with the default sets and flags. *)
Lemma new_default_run c bo w :
  ∃ op w',
    BroadcastOperator.new c bo None None None w = (Normal op, w') ∧
    op_snsClient op = c ∧ op_broadcastOptions op = bo ∧
    set_at w' (rooms op) = [] ∧ set_at w' (exceptRooms op) = [] ∧
    object_at w' (flags op) = [] ∧
    valid w' op ∧ preserved w w' ∧
    sns_calls w' = sns_calls w ∧ console w' = console w ∧ debug_log w' = debug_log w.
Proof.
  unfold BroadcastOperator.new, bind, new_Set, new_object, ret. simpl.
  eexists _, _. split; [reflexivity|]. simpl.
  set (h := set_heap w). set (l1 := fresh (dom h)).
  set (h1 := <[l1 := Set_of []]> h). set (l2 := fresh (dom h1)).
  assert (H1 : l1 ∉ dom h) by apply is_fresh.
  assert (H2 : l2 ∉ dom h1) by apply is_fresh.
  assert (Hne : l2 ≠ l1).
  { intros Heq. apply H2. rewrite Heq. unfold h1. rewrite dom_insert_L. set_solver. }
  assert (H3 := is_fresh (dom (obj_heap w))).
  unfold set_at, object_at, valid, preserved; simpl.
  fold h l1 h1 l2.
  rewrite lookup_insert_ne, !lookup_insert_eq by done.
  rewrite !dom_insert_L. fold h.
  split_and!; try done; try set_solver.
  - unfold h1. by rewrite lookup_insert_eq.
  - intros l s Hl. unfold h1. rewrite !lookup_insert_ne; [done| |].
    + intros <-. apply H1, elem_of_dom. by exists s.
    + intros <-. apply H2. unfold h1. rewrite dom_insert_L.
      apply elem_of_union_r, elem_of_dom. by exists s.
  - intros l o Hl. rewrite lookup_insert_ne; [done|].
    intros <-. apply H3, elem_of_dom. by exists o.
Qed.

(** *** The selectors *)

Lemma select_run op s w :
  ∃ op' w',
    select op s w = (Normal op', w') ∧
    op_snsClient op' = op_snsClient op ∧
    op_broadcastOptions op' = op_broadcastOptions op ∧
    sns_calls w' = sns_calls w ∧ console w' = console w.
Proof.
  destruct s; simpl; unfold BroadcastOperator.in_;
    rewrite ?to_run, ?except_run, ?compress_run, ?volatile_run;
    eexists _, _; (split; [reflexivity|]); done.
Qed.

Lemma chain_run op ss w :
  ∃ op' w',
    chain op ss w = (Normal op', w') ∧
    op_snsClient op' = op_snsClient op ∧
    op_broadcastOptions op' = op_broadcastOptions op ∧
    sns_calls w' = sns_calls w ∧ console w' = console w.
Proof.
  revert op w. induction ss as [|s ss IH]; intros op w; simpl.
  - by exists op, w.
  - destruct (select_run op s w) as (op1 & w1 & Hs & Hc & Hb & Hn & Hl).
    destruct (IH op1 w1) as (op2 & w2 & Hch & Hc' & Hb' & Hn' & Hl').
    exists op2, w2. unfold bind. rewrite Hs, Hch.
    split_and!; [done|congruence..].
Qed.

Lemma fire_run op t w :
  terminal_fails t = false →
  fire op t w
  = (Normal tt,
     publish_effect (op_snsClient op) (opt_topicArn (op_broadcastOptions op))
       (terminal_type t) (opt_nsp (op_broadcastOptions op))
       (terminal_payload w op t) w).
Proof.
  intros Hf. destruct t as [ev args|r|r|c]; simpl in *.
  - unfold bind. by rewrite emit_run.
  - apply socketsJoin_run.
  - apply socketsLeave_run.
  - apply disconnectSockets_run.
Qed.

Lemma fire_fails_run op t w :
  terminal_fails t = true → ∃ e, fire op t w = (Throw e, w).
Proof.
  intros Hf. destruct t as [ev args|r|r|c]; simpl in *; try discriminate.
  eexists. unfold bind. by rewrite emit_reserved_run.
Qed.

Lemma call_run e ss t w :
  ∃ op w1,
    call e ss t w = fire op t w1 ∧
    op_snsClient op = snsClient e ∧ op_broadcastOptions op = broadcastOptions e ∧
    sns_calls w1 = sns_calls w ∧ console w1 = console w.
Proof.
  destruct (new_default_run (snsClient e) (broadcastOptions e) w)
    as (op0 & w0 & Hnew & Hc & Hb & _ & _ & _ & _ & _ & Hn & Hl & _).
  destruct (chain_run op0 ss w0) as (op1 & w1 & Hch & Hc' & Hb' & Hn' & Hl').
  exists op1, w1. unfold call, bind. rewrite Hnew, Hch.
  split_and!; [done|congruence..].
Qed.

(** The methods of the emitter are calls with no selector, or with one. *)
Lemma emitter_methods_are_calls e ev args room close b w :
  (let* _ := Emitter.emit encode MessageType PacketType e ev args in ret tt) w
    = call e [] (TEmit ev args) w ∧
  Emitter.socketsJoin encode MessageType e room w = call e [] (TSocketsJoin room) w ∧
  Emitter.socketsLeave encode MessageType e room w = call e [] (TSocketsLeave room) w ∧
  Emitter.disconnectSockets encode MessageType e close w
    = call e [] (TDisconnectSockets (Some (default false close))) w ∧
  (let* op := Emitter.to e room in fire op (TEmit ev args)) w
    = call e [STo room] (TEmit ev args) w ∧
  (let* op := Emitter.in_ e room in fire op (TEmit ev args)) w
    = call e [SIn room] (TEmit ev args) w ∧
  (let* op := Emitter.except e room in fire op (TEmit ev args)) w
    = call e [SExcept room] (TEmit ev args) w ∧
  (let* op := Emitter.compress e b in fire op (TEmit ev args)) w
    = call e [SCompress b] (TEmit ev args) w ∧
  (let* op := Emitter.volatile e in fire op (TEmit ev args)) w
    = call e [SVolatile] (TEmit ev args) w.
Proof.
  destruct (new_default_run (snsClient e) (broadcastOptions e) w)
    as (op0 & w0 & Hnew & _).
  unfold Emitter.emit, Emitter.socketsJoin, Emitter.socketsLeave,
    Emitter.disconnectSockets, Emitter.to, Emitter.in_, Emitter.except,
    Emitter.compress, Emitter.volatile, call, bind.
  rewrite Hnew. cbn [chain]. unfold bind, ret.
  cbn [select]. unfold BroadcastOperator.in_.
  rewrite !to_run, !except_run, !compress_run, !volatile_run.
  split_and!; done.
Qed.

(** C8. Every selector of a broadcast operator ([to], [in], [except],
    [compress], [volatile]) returns another operator and leaves the room
    set, the exclusion set and the flags of the receiver as they were (as
    well as every other object of the store; the client is not called).
    Each changes only its own component: after [to] and [in] the new
    operator has the exclusion set and the flags of the receiver, after
    [except] its room set and its flags, after [compress] and [volatile]
    both of its sets. *)
Theorem selectors_leave_receiver
    (w : World) (op : BroadcastOperator) (room : RoomArg) (b : bool) :
  valid w op →
  returns_new w op (BroadcastOperator.to op room w)
    (λ op' w', (rooms op' ∉ dom (set_heap w)) ∧
               set_at w' (exceptRooms op') = set_at w (exceptRooms op) ∧
               object_at w' (flags op') = object_at w (flags op)) ∧
  returns_new w op (BroadcastOperator.in_ op room w)
    (λ op' w', (rooms op' ∉ dom (set_heap w)) ∧
               set_at w' (exceptRooms op') = set_at w (exceptRooms op) ∧
               object_at w' (flags op') = object_at w (flags op)) ∧
  returns_new w op (BroadcastOperator.except op room w)
    (λ op' w', (exceptRooms op' ∉ dom (set_heap w)) ∧
               set_at w' (rooms op') = set_at w (rooms op) ∧
               object_at w' (flags op') = object_at w (flags op)) ∧
  returns_new w op (BroadcastOperator.compress op b w)
    (λ op' w', (flags op' ∉ dom (obj_heap w)) ∧
               set_at w' (rooms op') = set_at w (rooms op) ∧
               set_at w' (exceptRooms op') = set_at w (exceptRooms op)) ∧
  returns_new w op (BroadcastOperator.volatile op w)
    (λ op' w', (flags op' ∉ dom (obj_heap w)) ∧
               set_at w' (rooms op') = set_at w (rooms op) ∧
               set_at w' (exceptRooms op') = set_at w (exceptRooms op)).
Proof.
  intros Hv. pose proof Hv as (Hr & He & Hf).
  assert (Hto : returns_new w op (BroadcastOperator.to op room w)
    (λ op' w', (rooms op' ∉ dom (set_heap w)) ∧
               set_at w' (exceptRooms op') = set_at w (exceptRooms op) ∧
               object_at w' (flags op') = object_at w (flags op))).
  { rewrite to_run. apply returns_new_rooms; [done|]. simpl.
    split_and!; [apply is_fresh|by apply set_at_alloc|done]. }
  split_and!.
  - exact Hto.
  - exact Hto.
  - rewrite except_run. apply returns_new_exceptRooms; [done|]. simpl.
    split_and!; [apply is_fresh|by apply set_at_alloc|done].
  - rewrite compress_run. apply returns_new_flags; [done|]. simpl.
    split_and!; [apply is_fresh|done|done].
  - rewrite volatile_run. apply returns_new_flags; [done|]. simpl.
    split_and!; [apply is_fresh|done|done].
Qed.

Lemma room_list_of_to op room w :
  room_list_of (BroadcastOperator.to op room w)
  = Some (add_all (room_list room) (Set_of (set_at w (rooms op)))).
Proof. rewrite to_run. unfold room_list_of. simpl. by rewrite set_at_new. Qed.

Lemma except_list_of_except op room w :
  except_list_of (BroadcastOperator.except op room w)
  = Some (add_all (room_list room) (Set_of (set_at w (exceptRooms op)))).
Proof. rewrite except_run. unfold except_list_of. simpl. by rewrite set_at_new. Qed.

Lemma room_list_of_to_to op r1 r2 w :
  room_list_of ((let* o := BroadcastOperator.to op r1 in BroadcastOperator.to o r2) w)
  = Some (add_all (room_list r2) (add_all (room_list r1) (Set_of (set_at w (rooms op))))).
Proof.
  unfold bind. rewrite to_run, room_list_of_to. simpl. rewrite set_at_new.
  by rewrite Set_of_NoDup by apply NoDup_add_all, NoDup_Set_of.
Qed.

Lemma except_list_of_except_except op r1 r2 w :
  except_list_of
    ((let* o := BroadcastOperator.except op r1 in BroadcastOperator.except o r2) w)
  = Some (add_all (room_list r2)
            (add_all (room_list r1) (Set_of (set_at w (exceptRooms op))))).
Proof.
  unfold bind. rewrite except_run, except_list_of_except. simpl. rewrite set_at_new.
  by rewrite Set_of_NoDup by apply NoDup_add_all, NoDup_Set_of.
Qed.

Lemma add_all_twice rs s : add_all rs (add_all rs s) = add_all rs s.
Proof. apply add_all_included. intros x Hx. apply elem_of_add_all. by right. Qed.

(** C9. For every broadcast operator and every room argument, a single
    string or a list, [to] returns an operator whose room set is the union
    of the receiver's room set with the given rooms, and [except] does the
    same for the exclusion set.  Hence a single string behaves as the
    one-element list, adding the same rooms twice changes nothing, and
    two chained calls yield the same set in either order: the receiver's
    set with the rooms of both, which is {a, b} for
    [emitter.to(a).to(b)]. *)
Theorem rooms_accumulate_by_union
    (w : World) (op : BroadcastOperator) (e : Emitter) (room r1 r2 : RoomArg)
    (r a b : string) :
  (∃ l, room_list_of (BroadcastOperator.to op room w) = Some l ∧ NoDup l ∧
        as_set l = as_set (set_at w (rooms op)) ∪ as_set (room_list room)) ∧
  (∃ l, except_list_of (BroadcastOperator.except op room w) = Some l ∧ NoDup l ∧
        as_set l = as_set (set_at w (exceptRooms op)) ∪ as_set (room_list room)) ∧
  BroadcastOperator.to op (OneRoom r) w = BroadcastOperator.to op (ManyRooms [r]) w ∧
  BroadcastOperator.except op (OneRoom r) w
    = BroadcastOperator.except op (ManyRooms [r]) w ∧
  room_list_of
    ((let* o := BroadcastOperator.to op room in BroadcastOperator.to o room) w)
    = room_list_of (BroadcastOperator.to op room w) ∧
  except_list_of
    ((let* o := BroadcastOperator.except op room in BroadcastOperator.except o room) w)
    = except_list_of (BroadcastOperator.except op room w) ∧
  (∃ l12 l21,
      room_list_of
        ((let* o := BroadcastOperator.to op r1 in BroadcastOperator.to o r2) w) = Some l12 ∧
      room_list_of
        ((let* o := BroadcastOperator.to op r2 in BroadcastOperator.to o r1) w) = Some l21 ∧
      as_set l12 = as_set l21 ∧
      as_set l12 = as_set (set_at w (rooms op)) ∪ as_set (room_list r1)
                     ∪ as_set (room_list r2)) ∧
  (∃ l12 l21,
      except_list_of
        ((let* o := BroadcastOperator.except op r1 in BroadcastOperator.except o r2) w)
        = Some l12 ∧
      except_list_of
        ((let* o := BroadcastOperator.except op r2 in BroadcastOperator.except o r1) w)
        = Some l21 ∧
      as_set l12 = as_set l21 ∧
      as_set l12 = as_set (set_at w (exceptRooms op)) ∪ as_set (room_list r1)
                     ∪ as_set (room_list r2)) ∧
  (∃ l, room_list_of
          ((let* o := Emitter.to e (OneRoom a) in
            BroadcastOperator.to o (OneRoom b)) w) = Some l ∧
        as_set l = {[a; b]}).
Proof.
  split_and!.
  - eexists. split; [apply room_list_of_to|]. split.
    + apply NoDup_add_all, NoDup_Set_of.
    + by rewrite as_set_add_all, as_set_Set_of.
  - eexists. split; [apply except_list_of_except|]. split.
    + apply NoDup_add_all, NoDup_Set_of.
    + by rewrite as_set_add_all, as_set_Set_of.
  - by rewrite !to_run.
  - by rewrite !except_run.
  - by rewrite room_list_of_to_to, room_list_of_to, add_all_twice.
  - by rewrite except_list_of_except_except, except_list_of_except, add_all_twice.
  - do 2 eexists. split_and!; [apply room_list_of_to_to..| |].
    + rewrite !as_set_add_all, as_set_Set_of. set_solver.
    + by rewrite !as_set_add_all, as_set_Set_of.
  - do 2 eexists. split_and!; [apply except_list_of_except_except..| |].
    + rewrite !as_set_add_all, as_set_Set_of. set_solver.
    + by rewrite !as_set_add_all, as_set_Set_of.
  - destruct (new_default_run (snsClient e) (broadcastOptions e) w)
      as (op0 & w0 & Hnew & _ & _ & Hrooms & _).
    eexists. split.
    + unfold Emitter.to. unfold bind at 1 2. rewrite Hnew.
      apply (room_list_of_to_to op0 (OneRoom a) (OneRoom b) w0).
    + rewrite !as_set_add_all, as_set_Set_of, Hrooms. unfold as_set. simpl.
      set_solver.
Qed.

(** *** Plain objects *)

Lemma obj_get_obj_set k k' v o :
  obj_get k' (obj_set k v o) = if String.eqb k' k then Some v else obj_get k' o.
Proof.
  induction o as [|[k0 v0] o IH]; simpl; [done|].
  destruct (String.eqb_spec k k0) as [->|Hk]; simpl.
  - by destruct (String.eqb k' k0).
  - rewrite IH. destruct (String.eqb_spec k' k0) as [->|Hk0]; [|done].
    by rewrite (proj2 (String.eqb_neq k0 k)).
Qed.

Lemma keys_cons k v (o : JSObj) : keys ((k, v) :: o) = k :: keys o.
Proof. reflexivity. Qed.

Lemma obj_set_new k v o : k ∉ keys o → obj_set k v o = o ++ [(k, v)].
Proof.
  induction o as [|[k0 v0] o IH]; cbn [obj_set]; intros Hk; [done|].
  rewrite keys_cons in Hk. apply not_elem_of_cons in Hk as [Hne Hk].
  rewrite (proj2 (String.eqb_neq k k0)) by done. by rewrite IH.
Qed.

Lemma keys_obj_set k v o :
  keys (obj_set k v o) = if bool_decide (k ∈ keys o) then keys o else keys o ++ [k].
Proof.
  induction o as [|[k0 v0] o IH]; cbn [obj_set]; [done|].
  rewrite !keys_cons.
  destruct (String.eqb_spec k k0) as [->|Hk].
  - rewrite bool_decide_eq_true_2; [done|by left].
  - rewrite keys_cons, IH. case_bool_decide as Hin.
    + rewrite bool_decide_eq_true_2; [done|by right].
    + rewrite bool_decide_eq_false_2; [done|].
      intros [?|?]%elem_of_cons; done.
Qed.

Lemma NoDup_keys_obj_set k v o : NoDup (keys o) → NoDup (keys (obj_set k v o)).
Proof.
  intros Ho. rewrite keys_obj_set. case_bool_decide as Hin; [done|].
  apply NoDup_app. split_and!; [done| |apply NoDup_singleton].
  intros x Hx ->%list_elem_of_singleton. done.
Qed.

Lemma assign_fresh_source src acc :
  NoDup (keys (acc ++ src)) →
  fold_left (λ t kv, obj_set kv.1 kv.2 t) src acc = acc ++ src.
Proof.
  revert acc. induction src as [|[k v] src IH]; intros acc Hnd; simpl.
  - by rewrite app_nil_r.
  - assert (Hk : k ∉ keys acc).
    { unfold keys in Hnd. rewrite fmap_app in Hnd.
      apply NoDup_app in Hnd as (_ & Hd & _). intros Hk.
      apply (Hd k Hk). rewrite fmap_cons. by left. }
    rewrite obj_set_new by done. rewrite IH; rewrite <- app_assoc; done.
Qed.

Lemma Object_assign_copy cur k v :
  NoDup (keys cur) → Object_assign [] [cur; [(k, v)]] = obj_set k v cur.
Proof.
  intros Hnd. unfold Object_assign. simpl.
  by rewrite (assign_fresh_source cur []).
Qed.

(** *** Chains of selectors on the store *)

Lemma add_all_app l1 l2 s : add_all (l1 ++ l2) s = add_all l2 (add_all l1 s).
Proof. apply fold_left_app. Qed.

Lemma select_refines op s w :
  well_formed w op →
  ∃ op' w',
    select op s w = (Normal op', w') ∧
    well_formed w' op' ∧ preserved w w' ∧ receiver_unchanged w op w' ∧
    op_snsClient op' = op_snsClient op ∧
    op_broadcastOptions op' = op_broadcastOptions op ∧
    sns_calls w' = sns_calls w ∧ console w' = console w ∧
    debug_log w' = debug_log w ∧
    set_at w' (rooms op') = add_all (rooms_given s) (set_at w (rooms op)) ∧
    set_at w' (exceptRooms op') = add_all (except_given s) (set_at w (exceptRooms op)) ∧
    object_at w' (flags op') = set_flag (object_at w (flags op)) s.
Proof.
  intros (Hv & Hnr & Hne & Hnf). pose proof Hv as (Hr & He & Hf).
  assert (Hto : ∀ room,
    ∃ op' w',
      BroadcastOperator.to op room w = (Normal op', w') ∧
      well_formed w' op' ∧ preserved w w' ∧ receiver_unchanged w op w' ∧
      op_snsClient op' = op_snsClient op ∧
      op_broadcastOptions op' = op_broadcastOptions op ∧
      sns_calls w' = sns_calls w ∧ console w' = console w ∧
      debug_log w' = debug_log w ∧
      set_at w' (rooms op') = add_all (room_list room) (set_at w (rooms op)) ∧
      set_at w' (exceptRooms op') = set_at w (exceptRooms op) ∧
      object_at w' (flags op') = object_at w (flags op)).
  { intros room. rewrite to_run. eexists _, _. split; [reflexivity|].
    cbn [with_rooms rooms exceptRooms flags op_snsClient op_broadcastOptions].
    rewrite set_at_new, (set_at_alloc _ _ _ He), (Set_of_NoDup _ Hnr).
    split_and!; try done.
    - split_and!; [by apply valid_set_alloc; auto| | |done].
      + rewrite set_at_new. by apply NoDup_add_all.
      + by rewrite set_at_alloc.
    - apply preserved_set_alloc.
    - split_and!; [by apply set_at_alloc|by apply set_at_alloc|done]. }
  destruct s as [room|room|room|b|]; simpl.
  - apply Hto.
  - apply Hto.
  - rewrite except_run. eexists _, _. split; [reflexivity|].
    cbn [with_exceptRooms rooms exceptRooms flags op_snsClient op_broadcastOptions].
    rewrite set_at_new, (set_at_alloc _ _ _ Hr), (Set_of_NoDup _ Hne).
    split_and!; try done.
    + split_and!; [by apply valid_set_alloc; auto| | |done].
      * by rewrite set_at_alloc.
      * rewrite set_at_new. by apply NoDup_add_all.
    + apply preserved_set_alloc.
    + split_and!; [by apply set_at_alloc|by apply set_at_alloc|done].
  - rewrite compress_run. eexists _, _. split; [reflexivity|].
    cbn [with_flags rooms exceptRooms flags op_snsClient op_broadcastOptions].
    rewrite object_at_new, (Object_assign_copy _ _ _ Hnf).
    split_and!; try done.
    + split_and!; [|done|done|].
      * unfold valid; simpl. rewrite dom_insert_L. set_solver.
      * rewrite object_at_new. by apply NoDup_keys_obj_set.
    + apply preserved_object_alloc.
    + split_and!; [done|done|by apply object_at_alloc].
  - rewrite volatile_run. eexists _, _. split; [reflexivity|].
    cbn [with_flags rooms exceptRooms flags op_snsClient op_broadcastOptions].
    rewrite object_at_new, (Object_assign_copy _ _ _ Hnf).
    split_and!; try done.
    + split_and!; [|done|done|].
      * unfold valid; simpl. rewrite dom_insert_L. set_solver.
      * rewrite object_at_new. by apply NoDup_keys_obj_set.
    + apply preserved_object_alloc.
    + split_and!; [done|done|by apply object_at_alloc].
Qed.

Lemma preserved_trans w1 w2 w3 : preserved w1 w2 → preserved w2 w3 → preserved w1 w3.
Proof. intros [H1 H2] [H3 H4]. split; eauto. Qed.

Lemma preserved_set_at w w' l :
  preserved w w' → l ∈ dom (set_heap w) → set_at w' l = set_at w l.
Proof.
  intros [Hs _] [s Hl]%elem_of_dom. unfold set_at. by rewrite (Hs l s Hl), Hl.
Qed.

Lemma preserved_object_at w w' l :
  preserved w w' → l ∈ dom (obj_heap w) → object_at w' l = object_at w l.
Proof.
  intros [_ Ho] [o Hl]%elem_of_dom. unfold object_at. f_equal.
  transitivity (Some o); [exact (Ho l o Hl)|symmetry; exact Hl].
Qed.

Lemma preserved_receiver w w' op :
  valid w op → preserved w w' → receiver_unchanged w op w'.
Proof.
  intros (Hr & He & Hf) Hp.
  split_and!; [by apply preserved_set_at..|by apply preserved_object_at].
Qed.

Lemma chain_refines op ss w :
  well_formed w op →
  ∃ op' w',
    chain op ss w = (Normal op', w') ∧
    well_formed w' op' ∧ preserved w w' ∧
    op_snsClient op' = op_snsClient op ∧
    op_broadcastOptions op' = op_broadcastOptions op ∧
    sns_calls w' = sns_calls w ∧ console w' = console w ∧
    debug_log w' = debug_log w ∧
    set_at w' (rooms op') = add_all (flat_map rooms_given ss) (set_at w (rooms op)) ∧
    set_at w' (exceptRooms op')
      = add_all (flat_map except_given ss) (set_at w (exceptRooms op)) ∧
    object_at w' (flags op') = fold_left set_flag ss (object_at w (flags op)).
Proof.
  revert op w. induction ss as [|s ss IH]; intros op w Hwf.
  - exists op, w. simpl. split_and!; done.
  - destruct (select_refines op s w Hwf)
      as (op1 & w1 & Hs & Hwf1 & Hp1 & _ & Hc1 & Hb1 & Hn1 & Hl1 & Hd1 & Hr1 & He1 & Hf1).
    destruct (IH op1 w1 Hwf1)
      as (op2 & w2 & Hch & Hwf2 & Hp2 & Hc2 & Hb2 & Hn2 & Hl2 & Hd2 & Hr2 & He2 & Hf2).
    exists op2, w2. cbn [chain]. unfold bind. rewrite Hs, Hch.
    cbn [flat_map fold_left]. rewrite !add_all_app, <- Hr1, <- He1, <- Hf1.
    split_and!; try done; try congruence.
    by apply (preserved_trans w w1 w2).
Qed.

Lemma operator_of_run e ss w :
  ∃ op w',
    operator_of e ss w = (Normal op, w') ∧
    well_formed w' op ∧ preserved w w' ∧
    op_snsClient op = snsClient e ∧ op_broadcastOptions op = broadcastOptions e ∧
    sns_calls w' = sns_calls w ∧ console w' = console w ∧
    debug_log w' = debug_log w ∧
    set_at w' (rooms op) = selected_rooms ss ∧
    set_at w' (exceptRooms op) = selected_except ss ∧
    object_at w' (flags op) = selected_flags ss.
Proof.
  destruct (new_default_run (snsClient e) (broadcastOptions e) w)
    as (op0 & w0 & Hnew & Hc & Hb & Hr & He & Hf & Hv & Hp & Hn & Hl & Hd).
  assert (Hwf : well_formed w0 op0).
  { split_and!; [done|rewrite ?Hr, ?He, ?Hf; apply NoDup_nil_2..]. }
  destruct (chain_refines op0 ss w0 Hwf)
    as (op1 & w1 & Hch & Hwf1 & Hp1 & Hc1 & Hb1 & Hn1 & Hl1 & Hd1 & Hr1 & He1 & Hf1).
  exists op1, w1. unfold operator_of, bind. rewrite Hnew, Hch.
  rewrite Hr in Hr1. rewrite He in He1. rewrite Hf in Hf1.
  split_and!; try done; try congruence.
  by apply (preserved_trans w w0 w1).
Qed.

Lemma call_is_fire_of_operator e ss t w :
  call e ss t w = (let* op := operator_of e ss in fire op t) w.
Proof.
  destruct (new_default_run (snsClient e) (broadcastOptions e) w)
    as (op0 & w0 & Hnew & _).
  unfold call, operator_of, bind. rewrite Hnew.
  by destruct (chain op0 ss w0) as [[?|?] ?].
Qed.

Lemma terminal_payload_reads w op t :
  terminal_payload w op t
  = payload_for (opt_nsp (op_broadcastOptions op)) (set_at w (rooms op))
                (set_at w (exceptRooms op)) (object_at w (flags op)) t.
Proof. by destruct t. Qed.

Lemma call_run_command e ss t w :
  terminal_fails t = false →
  ∃ w1, call e ss t w
        = (Normal tt,
           publish_effect (snsClient e) (opt_topicArn (broadcastOptions e))
             (terminal_type t) (opt_nsp (broadcastOptions e)) (payload_of e ss t) w1) ∧
        sns_calls w1 = sns_calls w ∧ console w1 = console w ∧
        debug_log w1 = debug_log w ∧ preserved w w1.
Proof.
  intros Ht.
  destruct (operator_of_run e ss w)
    as (op & w1 & Hop & _ & Hp & Hc & Hb & Hn & Hl & Hd & Hr & He & Hf).
  exists w1. rewrite call_is_fire_of_operator. unfold bind. rewrite Hop.
  rewrite fire_run by done. rewrite terminal_payload_reads, Hr, He, Hf, Hc, Hb.
  done.
Qed.

Lemma call_fails_run e ss t w :
  terminal_fails t = true →
  ∃ err w1, call e ss t w = (Throw err, w1) ∧ sns_calls w1 = sns_calls w.
Proof.
  intros Ht.
  destruct (operator_of_run e ss w) as (op & w1 & Hop & _ & _ & _ & _ & Hn & _).
  destruct (fire_fails_run op t w1 Ht) as [err Hf].
  exists err, w1. rewrite call_is_fire_of_operator. unfold bind. by rewrite Hop, Hf.
Qed.

Lemma call_calls e ss t w :
  sns_calls (call e ss t w).2
  = sns_calls w ++ (if terminal_fails t then [] else commands_of e ss t).
Proof.
  destruct (terminal_fails t) eqn:Ht.
  - destruct (call_fails_run e ss t w Ht) as (err & w1 & -> & Hn).
    simpl. by rewrite app_nil_r.
  - destruct (call_run_command e ss t w Ht) as (w1 & -> & Hn & _).
    cbn [snd]. by rewrite publish_effect_calls, Hn.
Qed.

Lemma publish_effect_accepted client topic type nsp fields bytes w :
  encode (JSObject fields) = Normal bytes →
  publish_effect client topic type nsp (JSObject fields) w
  = after_send client (published topic type nsp (Some bytes)) type w.
Proof. intros He. unfold publish_effect. by rewrite encoded_object, He. Qed.

Lemma publish_effect_rejected client topic type nsp fields err w :
  encode (JSObject fields) = Throw err →
  publish_effect client topic type nsp (JSObject fields) w = add_console err w.
Proof. intros He. unfold publish_effect. by rewrite encoded_object, He. Qed.

Lemma no_function_in_strings l : existsb has_function (JSString <$> l) = false.
Proof. induction l as [|x l IH]; [done|]. by rewrite fmap_cons. Qed.

Lemma publish_effect_reads client topic type nsp data w op t :
  terminal_payload (publish_effect client topic type nsp data w) op t
  = terminal_payload w op t.
Proof.
  unfold publish_effect, after_send.
  destruct (encoded data); [destruct (send client _ _)|]; by destruct t.
Qed.

Lemma terminal_payload_unchanged w w' op t :
  receiver_unchanged w op w' → terminal_payload w' op t = terminal_payload w op t.
Proof. intros (Hr & He & Hf). rewrite !terminal_payload_reads. by rewrite Hr, He, Hf. Qed.

Lemma commands_of_ext e ss ss' t :
  selected_rooms ss = selected_rooms ss' →
  selected_except ss = selected_except ss' →
  selected_flags ss = selected_flags ss' →
  commands_of e ss t = commands_of e ss' t.
Proof. intros Hr He Hf. unfold commands_of, payload_of. by rewrite Hr, He, Hf. Qed.

Lemma call_sends_typed e ss t w :
  terminal_fails t = false →
  sends_typed w (call e ss t w).2 (terminal_type t) (payload_of e ss t).
Proof.
  intros Ht. exists (commands_of e ss t). split_and!.
  - unfold sent_between. by rewrite call_calls, Ht.
  - apply commands_for_length.
  - apply commands_for_type.
Qed.

(** *** Wire messages *)

(** C1, amended. Every wire message carries, in decimal, the discriminator
    of the member of the imported enumeration [MessageType] that its
    method names, whatever the numbering of that enumeration: [emit] sends
    [BROADCAST], [socketsJoin] sends [SOCKETS_JOIN], [socketsLeave] sends
    [SOCKETS_LEAVE], [disconnectSockets] sends [DISCONNECT_SOCKETS] and
    [serverSideEmit] sends [SERVER_SIDE_EMIT], on an operator as well as
    through any chain of selectors on an emitter.  Each method hands the
    client one message when the codec accepts its payload, and none when
    the codec throws. *)
Theorem discriminators_follow_MessageType
    (w : World) (op : BroadcastOperator) (e : Emitter) (ss : list Selector)
    (t : Terminal) (ev : string) (args : list JSValue) (room : RoomArg)
    (close : option bool) :
  Set_has ev RESERVED_EVENTS = false →
  terminal_fails t = false →
  (∀ pre id, args ≠ pre ++ [JSFunction id]) →
  sends_typed w (BroadcastOperator.emit encode MessageType PacketType op ev args w).2
              (BROADCAST MessageType) (emit_payload w op ev args) ∧
  sends_typed w (BroadcastOperator.socketsJoin encode MessageType op room w).2
              (SOCKETS_JOIN MessageType) (sockets_payload w op room) ∧
  sends_typed w (BroadcastOperator.socketsLeave encode MessageType op room w).2
              (SOCKETS_LEAVE MessageType) (sockets_payload w op room) ∧
  sends_typed w (BroadcastOperator.disconnectSockets encode MessageType op close w).2
              (DISCONNECT_SOCKETS MessageType)
              (disconnect_payload w op (default false close)) ∧
  sends_typed w (Emitter.serverSideEmit encode MessageType e args w).2
              (SERVER_SIDE_EMIT MessageType) (JSObject [("packet", JSArray args)]) ∧
  sends_typed w (call e ss t w).2 (terminal_type t) (payload_of e ss t).
Proof.
  intros Hev Ht Hargs.
  assert (Hf : ends_in_function args = false).
  { destruct (ends_in_function args) eqn:Hf; [|done].
    apply ends_in_function_spec in Hf as (pre & id & Heq). by destruct (Hargs pre id). }
  split_and!.
  - rewrite emit_run by done. apply publish_effect_sends_typed.
  - rewrite socketsJoin_run. apply publish_effect_sends_typed.
  - rewrite socketsLeave_run. apply publish_effect_sends_typed.
  - rewrite disconnectSockets_run. apply publish_effect_sends_typed.
  - rewrite serverSideEmit_run by done. apply publish_effect_sends_typed.
  - by apply call_sends_typed.
Qed.

(** C2, amended. For every broadcast operator, [socketsJoin],
    [socketsLeave] and [disconnectSockets] assemble a payload that holds,
    under [opts], the room set and the exclusion set of the operator
    at the time of the call, each as an array in insertion order, and
    nothing else: the flags are not part of it.  Beside [opts] the payload
    holds the given rooms as a list, or the [close] flag.  The payload
    holds no function; the client is handed one message with the bytes
    the codec returns for it, and none if the codec throws. *)
Theorem sockets_methods_send_rooms_and_except
    (w : World) (op : BroadcastOperator) (room : RoomArg) (close : option bool) :
  let opts := JSObject [("rooms", JSArray (JSString <$> set_at w (rooms op)));
                        ("except", JSArray (JSString <$> set_at w (exceptRooms op)))] in
  let sent (w' : World) (data : JSValue) :=
    has_function data = false ∧
    (∀ bytes, encode data = Normal bytes →
       ∃ cmd, sns_calls w' = sns_calls w ++ [cmd] ∧
              MessageAttributes cmd !! "data" = Some (binary_attribute bytes)) ∧
    (∀ err, encode data = Throw err → sns_calls w' = sns_calls w) in
  sent (BroadcastOperator.socketsJoin encode MessageType op room w).2
       (JSObject [("opts", opts);
                  ("rooms", JSArray (JSString <$> room_list room))]) ∧
  sent (BroadcastOperator.socketsLeave encode MessageType op room w).2
       (JSObject [("opts", opts);
                  ("rooms", JSArray (JSString <$> room_list room))]) ∧
  sent (BroadcastOperator.disconnectSockets encode MessageType op close w).2
       (JSObject [("opts", opts); ("close", JSBoolean (default false close))]) ∧
  (BroadcastOperator.sockets_data op room w).1
    = Normal (JSObject [("opts", opts);
                        ("rooms", JSArray (JSString <$> room_list room))]) ∧
  (BroadcastOperator.disconnect_data op (default false close) w).1
    = Normal (JSObject [("opts", opts); ("close", JSBoolean (default false close))]).
Proof.
  cbv zeta.
  rewrite socketsJoin_run, socketsLeave_run, disconnectSockets_run. cbn [snd].
  unfold sockets_payload, disconnect_payload, targeting, strings.
  split_and!; try reflexivity.
  all: try (cbn [has_function existsb snd]; by rewrite !no_function_in_strings).
  all: try (intros bytes He; rewrite (publish_effect_accepted _ _ _ _ _ _ _ He);
            eexists; split; [apply after_send_calls|apply published_data]).
  all: intros err He; by rewrite (publish_effect_rejected _ _ _ _ _ _ _ He).
Qed.

Lemma settles_publish_effect {A} client topic type nsp data w (a : A) :
  settles w (Normal a, publish_effect client topic type nsp data w) client a data.
Proof. split; [done|apply publish_effect_swallowed]. Qed.

Lemma settles_later {A} client w w1 (res : Completion A * World) (a : A) data :
  sns_calls w1 = sns_calls w → console w1 = console w →
  settles w1 res client a data → settles w res client a data.
Proof.
  intros Hn Hl [Hr Hs]. split; [done|].
  unfold swallowed, sent_between in *. destruct (encoded data).
  - destruct Hs as (cmd & H1 & H2). exists cmd. by rewrite H1, H2, Hn, Hl.
  - destruct Hs as [H1 H2]. by rewrite H1, H2, Hn, Hl.
Qed.

(** C3. Whatever the client does with a command (its promise is fulfilled,
    it is rejected with an error, or the call throws), [publish] settles
    normally, and the error, if there is one, is written to the console
    and to nothing else; the same holds for what the codec throws, and
    then the client is not called.  So [emit] resolves to [true] for every
    event name that is not reserved, and [socketsJoin], [socketsLeave],
    [disconnectSockets] and, without a trailing function, [serverSideEmit]
    resolve normally, on an operator and through any chain of selectors on
    an emitter. *)
Theorem publish_errors_are_swallowed
    (w : World) (client : SNS) (topic : string) (type : Z) (ns : string)
    (uid : option string) (data : JSValue)
    (op : BroadcastOperator) (e : Emitter) (ss : list Selector) (t : Terminal)
    (ev : string) (args : list JSValue) (room : RoomArg) (close : option bool) :
  Set_has ev RESERVED_EVENTS = false →
  terminal_fails t = false →
  (∀ pre id, args ≠ pre ++ [JSFunction id]) →
  settles w (publish encode client topic type (Some ns) uid data w) client tt data ∧
  settles w (BroadcastOperator.emit encode MessageType PacketType op ev args w)
          (op_snsClient op) true (emit_payload w op ev args) ∧
  settles w (BroadcastOperator.socketsJoin encode MessageType op room w)
          (op_snsClient op) tt (sockets_payload w op room) ∧
  settles w (BroadcastOperator.socketsLeave encode MessageType op room w)
          (op_snsClient op) tt (sockets_payload w op room) ∧
  settles w (BroadcastOperator.disconnectSockets encode MessageType op close w)
          (op_snsClient op) tt (disconnect_payload w op (default false close)) ∧
  settles w (Emitter.serverSideEmit encode MessageType e args w) (snsClient e) tt
          (JSObject [("packet", JSArray args)]) ∧
  settles w (Emitter.emit encode MessageType PacketType e ev args w) (snsClient e) true
          (payload_of e [] (TEmit ev args)) ∧
  settles w (call e ss t w) (snsClient e) tt (payload_of e ss t).
Proof.
  intros Hev Ht Hargs.
  assert (Hf : ends_in_function args = false).
  { destruct (ends_in_function args) eqn:Hf; [|done].
    apply ends_in_function_spec in Hf as (pre & id & Heq). by destruct (Hargs pre id). }
  split_and!.
  - rewrite publish_run. apply settles_publish_effect.
  - rewrite emit_run by done. apply settles_publish_effect.
  - rewrite socketsJoin_run. apply settles_publish_effect.
  - rewrite socketsLeave_run. apply settles_publish_effect.
  - rewrite disconnectSockets_run. apply settles_publish_effect.
  - rewrite serverSideEmit_run by done. apply settles_publish_effect.
  - destruct (new_default_run (snsClient e) (broadcastOptions e) w)
      as (op0 & w0 & Hnew & Hc & Hb & Hr & He & Hfl & _ & _ & Hn & Hl & _).
    unfold Emitter.emit, bind. rewrite Hnew, emit_run by done.
    apply (settles_later _ w w0); [done..|].
    change (emit_payload w0 op0 ev args) with (terminal_payload w0 op0 (TEmit ev args)).
    rewrite terminal_payload_reads, Hr, He, Hfl, Hc, Hb.
    apply settles_publish_effect.
  - destruct (call_run_command e ss t w Ht) as (w1 & -> & Hn & Hl & _).
    apply (settles_later _ w w1); [done..|]. apply settles_publish_effect.
Qed.

(** C4. For every event name of the reserved set ([connect],
    [connect_error], [disconnect], [disconnecting], [newListener],
    [removeListener]), [emit] on an operator or on an emitter ends with the
    reserved-name error and the client is not called; for every other
    event name [emit] does not fail: it resolves to [true]. *)
Theorem reserved_names_fail_before_publish
    (w : World) (op : BroadcastOperator) (e : Emitter) (ev : string)
    (args : list JSValue) :
  (ev ∈ reserved_names →
   BroadcastOperator.emit encode MessageType PacketType op ev args w
     = (Throw (JSError (dquote ++ ev ++ dquote ++ " is a reserved event name")%string), w) ∧
   (Emitter.emit encode MessageType PacketType e ev args w).1
     = Throw (JSError (dquote ++ ev ++ dquote ++ " is a reserved event name")%string) ∧
   sent_between w (Emitter.emit encode MessageType PacketType e ev args w).2 []) ∧
  (ev ∉ reserved_names →
   (BroadcastOperator.emit encode MessageType PacketType op ev args w).1 = Normal true ∧
   (Emitter.emit encode MessageType PacketType e ev args w).1 = Normal true).
Proof.
  assert (Hset : Set_has ev RESERVED_EVENTS = bool_decide (ev ∈ reserved_names))
    by reflexivity.
  destruct (new_default_run (snsClient e) (broadcastOptions e) w)
    as (op0 & w0 & Hnew & _ & _ & _ & _ & _ & _ & _ & Hn & _).
  split; intros Hev.
  - rewrite bool_decide_eq_true_2 in Hset by done.
    unfold Emitter.emit, bind, sent_between. rewrite Hnew, !emit_reserved_run by done.
    simpl. by rewrite app_nil_r.
  - rewrite bool_decide_eq_false_2 in Hset by done.
    unfold Emitter.emit, bind. by rewrite Hnew, !emit_run.
Qed.

(** C5, amended. [serverSideEmit] fails if and only if its argument list
    ends in a function, then with the error "Acknowledgements are not
    supported" and without calling the client.  For every other argument
    list, the empty one included, it resolves; it sends one message, whose
    data are the bytes of the payload with the argument list as [packet],
    when the codec returns them, and it sends nothing and logs what the
    codec threw when the codec throws. *)
Theorem serverSideEmit_rejects_trailing_function
    (w : World) (e : Emitter) (args : list JSValue) :
  ((∃ err, (Emitter.serverSideEmit encode MessageType e args w).1 = Throw err)
   ↔ ∃ pre id, args = pre ++ [JSFunction id]) ∧
  ((∃ pre id, args = pre ++ [JSFunction id]) →
   Emitter.serverSideEmit encode MessageType e args w
     = (Throw (JSError "Acknowledgements are not supported"), w)) ∧
  ((∀ pre id, args ≠ pre ++ [JSFunction id]) →
   (Emitter.serverSideEmit encode MessageType e args w).1 = Normal tt ∧
   (∀ bytes,
       encode (JSObject [("packet", JSArray args)]) = Normal bytes →
       ∃ cmd,
         sent_between w (Emitter.serverSideEmit encode MessageType e args w).2 [cmd] ∧
         MessageAttributes cmd !! "data" = Some (binary_attribute bytes)) ∧
   (∀ err,
       encode (JSObject [("packet", JSArray args)]) = Throw err →
       sent_between w (Emitter.serverSideEmit encode MessageType e args w).2 [] ∧
       console (Emitter.serverSideEmit encode MessageType e args w).2
         = console w ++ [err])).
Proof.
  destruct (ends_in_function args) eqn:Hf.
  - pose proof (proj1 (ends_in_function_spec _) Hf) as Hid.
    rewrite serverSideEmit_ack_run by done. split_and!.
    + split; [done|]. intros _. by eexists.
    + done.
    + intros Hno. destruct Hid as (pre & id & Hid). by destruct (Hno pre id).
  - assert (Hno : ¬ ∃ pre id, args = pre ++ [JSFunction id]).
    { intros Hid. apply ends_in_function_spec in Hid. congruence. }
    rewrite serverSideEmit_run by done. unfold Emitter.serverSideEmit_data.
    split_and!.
    + split; [intros [err Herr]; discriminate|done].
    + done.
    + intros _. cbn [fst snd]. split_and!; [done| |].
      * intros bytes He. rewrite (publish_effect_accepted _ _ _ _ _ _ _ He).
        eexists. split; [apply after_send_calls|apply published_data].
      * intros err He. rewrite (publish_effect_rejected _ _ _ _ _ _ _ He).
        split; [|done]. unfold sent_between. simpl. by rewrite app_nil_r.
Qed.

(** C6, amended. For every event name that is not reserved and every
    argument list, [emit] resolves to [true] after assembling the payload:
    a [packet] with the event packet type, the list of the event name
    followed by the arguments, and the namespace; beside it [opts] with
    the room set and the exclusion set as arrays and the flags.  When the
    codec returns the bytes of the payload, [emit] hands the client one
    command: the discriminator [BROADCAST] in decimal as its message, the
    topic of the operator, and an attribute map with [uid] equal to
    "emitter", [data] equal to those bytes and, when the namespace is not
    the empty string, [nsp] equal to the namespace.  When the codec throws
    (an argument is a function), the client is handed nothing. *)
Theorem emit_publishes_packet_and_opts
    (w : World) (op : BroadcastOperator) (ev : string) (args : list JSValue) :
  Set_has ev RESERVED_EVENTS = false →
  let payload :=
    JSObject
      [("packet",
        JSObject [("type", JSNumber (EVENT PacketType));
                  ("data", JSArray (JSString ev :: args));
                  ("nsp", JSString (opt_nsp (op_broadcastOptions op)))]);
       ("opts",
        JSObject [("rooms", JSArray (JSString <$> set_at w (rooms op)));
                  ("flags", JSObject (object_at w (flags op)));
                  ("except", JSArray (JSString <$> set_at w (exceptRooms op)))])] in
  let res := BroadcastOperator.emit encode MessageType PacketType op ev args w in
  res.1 = Normal true ∧
  (BroadcastOperator.emit_data PacketType op ev args w).1 = Normal payload ∧
  (∀ bytes,
      encode payload = Normal bytes →
      ∃ cmd,
        sent_between w res.2 [cmd] ∧
        TopicArn cmd = opt_topicArn (op_broadcastOptions op) ∧
        Message cmd = String_of_number (BROADCAST MessageType) ∧
        (opt_nsp (op_broadcastOptions op) ≠ EmptyString →
         MessageAttributes cmd !! "nsp"
           = Some {| DataType := "String";
                     StringValue := Some (opt_nsp (op_broadcastOptions op));
                     BinaryValue := None |}) ∧
        MessageAttributes cmd !! "uid"
          = Some {| DataType := "String"; StringValue := Some "emitter";
                    BinaryValue := None |} ∧
        MessageAttributes cmd !! "data"
          = Some {| DataType := "Binary"; StringValue := None;
                    BinaryValue := Some bytes |}) ∧
  (∀ err, encode payload = Throw err →
          sent_between w res.2 [] ∧ console res.2 = console w ++ [err]).
Proof.
  intros Hev. cbv zeta. rewrite emit_run by done. cbn [fst snd].
  unfold emit_payload, strings. split_and!; [done|done| |].
  - intros bytes He. rewrite (publish_effect_accepted _ _ _ _ _ _ _ He).
    eexists. split_and!.
    + apply after_send_calls.
    + reflexivity.
    + reflexivity.
    + intros Hns. by apply published_carries_namespace.
    + apply published_uid.
    + apply published_data.
  - intros err He. rewrite (publish_effect_rejected _ _ _ _ _ _ _ He).
    split; [|done]. unfold sent_between. simpl. by rewrite app_nil_r.
Qed.

(** C7, amended. The constructor stores the namespace it is given, and
    ["/"] when none is given.  For every path [p], [of] returns an emitter
    with the same client and topic whose namespace is [p], prefixed with
    ["/"] when [p] does not start with it: so the namespace of every emitter
    made by [of] starts with ["/"], and [of("custom")] and [of("/custom")]
    give the same emitter, with namespace ["/custom"].  The receiver is a
    record of read-only fields and [of] only reads it. *)
Theorem of_prefixes_the_namespace
    (client : SNS) (topic : string) (e : Emitter) (p ns : string) :
  nsp (Emitter.new client topic None) = "/" ∧
  nsp (Emitter.new client topic (Some ns)) = ns ∧
  snsClient (Emitter.of_ e p) = snsClient e ∧
  topicArn (Emitter.of_ e p) = topicArn e ∧
  nsp (Emitter.of_ e p) = (if starts_with_slash p then p else ("/" ++ p)%string) ∧
  starts_with_slash (nsp (Emitter.of_ e p)) = true ∧
  broadcastOptions (Emitter.of_ e p)
    = {| opt_nsp := nsp (Emitter.of_ e p); opt_topicArn := topicArn e |} ∧
  nsp (Emitter.of_ e "custom") = "/custom" ∧
  Emitter.of_ e "custom" = Emitter.of_ e "/custom".
Proof.
  split_and!; try reflexivity.
  - destruct p as [|c p]; [reflexivity|]. unfold Emitter.of_; simpl.
    by destruct (Ascii.eqb c "/"%char).
  - destruct p as [|c p]; [reflexivity|]. unfold Emitter.of_; simpl.
    by destruct (Ascii.eqb c "/"%char) eqn:Hc; simpl.
Qed.

(** C10. An emitter constructed with a namespace has that namespace as it
    is given.  Every message it publishes afterwards, by [serverSideEmit] or
    by a terminal method after any chain of selectors, has the attribute
    [uid] equal to "emitter"; it has no attribute [nsp] when the namespace
    is the empty string, and the attribute [nsp] equal to the namespace
    when it is not.  One message is published when the method does not
    fail and the codec accepts the payload, and none otherwise. *)
Theorem nsp_attribute_absent_for_empty_namespace
    (w : World) (client : SNS) (topic ns : string) (ss : list Selector) (t : Terminal)
    (args : list JSValue) :
  let e := Emitter.new client topic (Some ns) in
  nsp e = ns ∧
  (∃ cmds, sent_between w (call e ss t w).2 cmds ∧
           length cmds = (if terminal_fails t then 0
                          else if accepted (payload_of e ss t) then 1 else 0)%nat ∧
           Forall (carries_namespace ns) cmds) ∧
  (∃ cmds, sent_between w (Emitter.serverSideEmit encode MessageType e args w).2 cmds ∧
           length cmds = (if ends_in_function args then 0
                          else if accepted (JSObject [("packet", JSArray args)])
                               then 1 else 0)%nat ∧
           Forall (carries_namespace ns) cmds).
Proof.
  intros e. split_and!; [done| |].
  - exists (if terminal_fails t then [] else commands_of e ss t). split_and!.
    + apply call_calls.
    + destruct (terminal_fails t); [done|]. apply commands_for_length.
    + destruct (terminal_fails t); [constructor|].
      apply commands_for_carry_namespace.
  - destruct (ends_in_function args) eqn:Hf.
    + rewrite serverSideEmit_ack_run by done.
      exists []. unfold sent_between. simpl. by rewrite app_nil_r.
    + rewrite serverSideEmit_run by done. eexists. unfold sent_between.
      cbn [snd]. rewrite publish_effect_calls. split_and!; [done| |].
      * apply commands_for_length.
      * apply commands_for_carry_namespace.
Qed.

(** *** The order of first mention *)

Lemma add_all_first_mentions rs s :
  add_all rs s = s ++ filter (λ y, y ∉ s) (first_mentions rs).
Proof.
  revert s. induction rs as [|x rs IH]; intros s.
  - by rewrite app_nil_r.
  - cbn [add_all fold_left first_mentions]. fold (add_all rs (Set_add x s)).
    rewrite IH. unfold Set_add, Set_has. case_bool_decide as Hx.
    + rewrite filter_cons_False by (intros Hn; by apply Hn).
      rewrite list_filter_filter_l; [done|]. intros y Hy ->. done.
    + rewrite filter_cons_True by done. rewrite <- app_assoc. cbn [app].
      do 2 f_equal. rewrite list_filter_filter. apply list_filter_iff.
      intros y. rewrite elem_of_app, list_elem_of_singleton. tauto.
Qed.

Lemma add_all_nil_first_mentions rs : add_all rs [] = first_mentions rs.
Proof.
  rewrite add_all_first_mentions. cbn [app].
  induction (first_mentions rs) as [|y l IH]; [done|].
  rewrite filter_cons_True by apply not_elem_of_nil. by rewrite IH.
Qed.

Lemma payload_of_object e ss t : ∃ fields, payload_of e ss t = JSObject fields.
Proof. destruct t; by eexists. Qed.

Lemma terminal_payload_object w op t : ∃ fields, terminal_payload w op t = JSObject fields.
Proof. destruct t; by eexists. Qed.

(** *** Calls on an emitter *)

(** X1. A terminal method that does not fail, called after any chain of
    selectors on an emitter, resolves, and what it hands the client is a
    function of the emitter, the chain and the method alone: one command
    with the bytes of the payload when the codec returns them, nothing
    when the codec throws (what it threw is then on the console).  The
    payload holds the rooms and the exclusions the chain named, each once
    in the order of first mention, and the flags it set.  The store the
    call started from plays no part, and none of its objects is changed. *)
Theorem call_sends_command_of_chain
    (e : Emitter) (ss : list Selector) (t : Terminal) (w : World) :
  terminal_fails t = false →
  (call e ss t w).1 = Normal tt ∧
  sent_between w (call e ss t w).2 (commands_of e ss t) ∧
  (∀ bytes,
      encode (payload_of e ss t) = Normal bytes →
      commands_of e ss t
      = [published (opt_topicArn (broadcastOptions e)) (terminal_type t)
                   (opt_nsp (broadcastOptions e)) (Some bytes)]) ∧
  (∀ err,
      encode (payload_of e ss t) = Throw err →
      commands_of e ss t = [] ∧ console (call e ss t w).2 = console w ++ [err]) ∧
  preserved w (call e ss t w).2 ∧
  selected_rooms ss = first_mentions (flat_map rooms_given ss) ∧
  selected_except ss = first_mentions (flat_map except_given ss).
Proof.
  intros Ht.
  destruct (call_run_command e ss t w Ht) as (w1 & Hcall & Hn & Hl & _ & Hp).
  destruct (payload_of_object e ss t) as [fields Hfields].
  split_and!.
  - by rewrite Hcall.
  - unfold sent_between. by rewrite call_calls, Ht.
  - intros bytes He. unfold commands_of, commands_for.
    rewrite Hfields in He |- *. by rewrite encoded_object, He.
  - intros err He. rewrite Hcall. cbn [snd]. unfold commands_of, commands_for.
    rewrite Hfields in He |- *.
    rewrite (publish_effect_rejected _ _ _ _ _ _ _ He), encoded_object, He.
    split; [done|]. simpl. by rewrite Hl.
  - rewrite Hcall. apply (preserved_trans w w1); [done|apply publish_effect_preserved].
  - apply add_all_nil_first_mentions.
  - apply add_all_nil_first_mentions.
Qed.

(** X2. Two chained calls of [to] send what one call of [to] with the two
    room lists joined sends, the same holds for [except], and [in] sends
    what [to] sends: the calls made to the client are the same, wherever in
    a chain the selectors stand and whatever the terminal method. *)
Theorem chained_selectors_concatenate
    (e : Emitter) (ss1 ss2 : list Selector) (r1 r2 : RoomArg) (t : Terminal) (w : World) :
  sns_calls (call e (ss1 ++ STo r1 :: STo r2 :: ss2) t w).2
    = sns_calls (call e (ss1 ++ STo (ManyRooms (room_list r1 ++ room_list r2)) :: ss2)
                   t w).2 ∧
  sns_calls (call e (ss1 ++ SExcept r1 :: SExcept r2 :: ss2) t w).2
    = sns_calls (call e (ss1 ++ SExcept (ManyRooms (room_list r1 ++ room_list r2)) :: ss2)
                   t w).2 ∧
  sns_calls (call e (ss1 ++ SIn r1 :: ss2) t w).2
    = sns_calls (call e (ss1 ++ STo r1 :: ss2) t w).2.
Proof.
  rewrite !call_calls.
  split_and!; f_equal; destruct (terminal_fails t); try done;
    apply commands_of_ext; unfold selected_rooms, selected_except, selected_flags;
    rewrite ?flat_map_app, ?fold_left_app;
    cbn [flat_map fold_left rooms_given except_given set_flag room_list];
    by rewrite ?app_nil_l, <- ?app_assoc.
Qed.

(** X3. Two neighbouring selectors that work on different components (the
    room set, the exclusion set, the flags) can be swapped: the calls made
    to the client are the same.  So [to(a).except(b)] and [except(b).to(a)]
    send the same message. *)
Theorem selectors_of_different_components_commute
    (e : Emitter) (ss1 ss2 : list Selector) (s1 s2 : Selector) (t : Terminal) (w : World) :
  component s1 ≠ component s2 →
  sns_calls (call e (ss1 ++ s1 :: s2 :: ss2) t w).2
    = sns_calls (call e (ss1 ++ s2 :: s1 :: ss2) t w).2.
Proof.
  intros Hc. rewrite !call_calls. f_equal.
  destruct (terminal_fails t); [done|].
  apply commands_of_ext; unfold selected_rooms, selected_except, selected_flags;
    rewrite ?flat_map_app, ?fold_left_app; cbn [flat_map fold_left];
    destruct s1, s2; simpl in Hc; try done;
    cbn [rooms_given except_given set_flag]; by rewrite ?app_nil_l, ?app_nil_r.
Qed.

(** *** Flags *)

Lemma flags_keep_compress ss o :
  (∀ b, SCompress b ∉ ss) →
  obj_get "compress" (fold_left set_flag ss o) = obj_get "compress" o.
Proof.
  revert o. induction ss as [|s ss IH]; intros o Hno; [done|].
  cbn [fold_left]. rewrite IH.
  - destruct s; cbn [set_flag]; try done.
    + exfalso. apply (Hno b). by left.
    + by rewrite obj_get_obj_set.
  - intros b Hb. apply (Hno b). by right.
Qed.

Lemma flags_keep_volatile ss o :
  SVolatile ∉ ss →
  obj_get "volatile" (fold_left set_flag ss o) = obj_get "volatile" o.
Proof.
  revert o. induction ss as [|s ss IH]; intros o Hno; [done|].
  apply not_elem_of_cons in Hno as [Hs Hno].
  cbn [fold_left]. rewrite IH by done.
  destruct s; cbn [set_flag]; try done. by rewrite obj_get_obj_set.
Qed.

Lemma flags_volatile_stays ss o :
  obj_get "volatile" o = Some (JSBoolean true) →
  obj_get "volatile" (fold_left set_flag ss o) = Some (JSBoolean true).
Proof.
  revert o. induction ss as [|s ss IH]; intros o Ho; [done|].
  cbn [fold_left]. apply IH.
  destruct s; cbn [set_flag]; try done; by rewrite obj_get_obj_set.
Qed.

Lemma flags_keep_other_keys ss o k :
  k ≠ "compress" → k ≠ "volatile" →
  obj_get k (fold_left set_flag ss o) = obj_get k o.
Proof.
  intros Hc Hv. revert o. induction ss as [|s ss IH]; intros o; [done|].
  cbn [fold_left]. rewrite IH.
  destruct s; cbn [set_flag]; try done; rewrite obj_get_obj_set;
    by rewrite (proj2 (String.eqb_neq _ _)).
Qed.

(** X4. The flags of the operator of a chain on an emitter are decided key
    by key by the last selector that wrote the key: [compress] holds the
    argument of the last call of [compress] and is absent when there was
    none, [volatile] is [true] once [volatile] was selected (nothing in a
    chain unsets it) and absent otherwise, and there is no other key. *)
Theorem flags_are_last_write_wins (e : Emitter) (ss : list Selector) (w : World) :
  ∃ op w',
    operator_of e ss w = (Normal op, w') ∧
    ((∀ b, SCompress b ∉ ss) → obj_get "compress" (object_at w' (flags op)) = None) ∧
    (∀ ss1 ss2 b,
        ss = ss1 ++ SCompress b :: ss2 → (∀ b', SCompress b' ∉ ss2) →
        obj_get "compress" (object_at w' (flags op)) = Some (JSBoolean b)) ∧
    (SVolatile ∈ ss →
     obj_get "volatile" (object_at w' (flags op)) = Some (JSBoolean true)) ∧
    (SVolatile ∉ ss → obj_get "volatile" (object_at w' (flags op)) = None) ∧
    (∀ k, k ≠ "compress" → k ≠ "volatile" →
          obj_get k (object_at w' (flags op)) = None).
Proof.
  destruct (operator_of_run e ss w)
    as (op & w' & Hop & _ & _ & _ & _ & _ & _ & _ & _ & _ & Hf).
  exists op, w'. rewrite Hf. unfold selected_flags. split_and!; [done|..].
  - intros Hno. by rewrite flags_keep_compress.
  - intros ss1 ss2 b -> Hno. rewrite fold_left_app. cbn [fold_left set_flag].
    rewrite flags_keep_compress by done. by rewrite obj_get_obj_set.
  - intros (ss1 & ss2 & ->)%list_elem_of_split. rewrite fold_left_app.
    cbn [fold_left set_flag]. apply flags_volatile_stays. by rewrite obj_get_obj_set.
  - intros Hno. by rewrite flags_keep_volatile.
  - intros k Hc Hv. by rewrite flags_keep_other_keys.
Qed.

(** *** Operators on the store *)

Lemma select_preserves op s w :
  valid w op →
  ∃ op' w',
    select op s w = (Normal op', w') ∧ valid w' op' ∧ preserved w w' ∧
    sns_calls w' = sns_calls w.
Proof.
  intros Hv.
  assert (H : returns_new w op (select op s w) (λ _ _, True)).
  { destruct s; simpl; unfold BroadcastOperator.in_;
      rewrite ?to_run, ?except_run, ?compress_run, ?volatile_run;
      first [by apply returns_new_rooms | by apply returns_new_exceptRooms
            | by apply returns_new_flags]. }
  destruct H as (op' & Hres & _ & _ & Hp & Hn & Hv' & _).
  exists op', (select op s w).2. split_and!; try done.
  by rewrite <- Hres, <- surjective_pairing.
Qed.

Lemma chain_preserves op ss w :
  valid w op →
  ∃ op' w',
    chain op ss w = (Normal op', w') ∧ valid w' op' ∧ preserved w w' ∧
    sns_calls w' = sns_calls w.
Proof.
  revert op w. induction ss as [|s ss IH]; intros op w Hv.
  - exists op, w. by split_and!.
  - destruct (select_preserves op s w Hv) as (op1 & w1 & Hs & Hv1 & Hp1 & Hn1).
    destruct (IH op1 w1 Hv1) as (op2 & w2 & Hch & Hv2 & Hp2 & Hn2).
    exists op2, w2. cbn [chain]. unfold bind. rewrite Hs, Hch.
    split_and!; [done|done|by apply (preserved_trans w w1 w2)|congruence].
Qed.

(** X5. An operator can be used again.  Deriving other operators from it
    by any chain of selectors, and calling a terminal method on it, change
    nothing of what it sends: after the chain, two terminal methods called
    on the operator one after the other resolve and hand the client, in
    that order, what each has for the operator in the world before the
    chain: one command with the bytes of its payload, or nothing when the
    codec throws on that payload. *)
Theorem operator_can_be_used_again
    (op : BroadcastOperator) (ss : list Selector) (t1 t2 : Terminal) (w : World) :
  valid w op →
  terminal_fails t1 = false →
  terminal_fails t2 = false →
  let res := (let* _ := chain op ss in let* _ := fire op t1 in fire op t2) w in
  res.1 = Normal tt ∧
  sent_between w res.2
    (commands_for (opt_topicArn (op_broadcastOptions op)) (terminal_type t1)
                  (opt_nsp (op_broadcastOptions op)) (terminal_payload w op t1)
     ++ commands_for (opt_topicArn (op_broadcastOptions op)) (terminal_type t2)
                     (opt_nsp (op_broadcastOptions op)) (terminal_payload w op t2)) ∧
  (∀ b1 b2,
      encode (terminal_payload w op t1) = Normal b1 →
      encode (terminal_payload w op t2) = Normal b2 →
      sent_between w res.2
        [published (opt_topicArn (op_broadcastOptions op)) (terminal_type t1)
                   (opt_nsp (op_broadcastOptions op)) (Some b1);
         published (opt_topicArn (op_broadcastOptions op)) (terminal_type t2)
                   (opt_nsp (op_broadcastOptions op)) (Some b2)]).
Proof.
  intros Hv Ht1 Ht2.
  destruct (chain_preserves op ss w Hv) as (op1 & w1 & Hch & _ & Hp & Hn).
  pose proof (preserved_receiver w w1 op Hv Hp) as Hun.
  assert (Hsent : sent_between w
    ((let* _ := chain op ss in let* _ := fire op t1 in fire op t2) w).2
    (commands_for (opt_topicArn (op_broadcastOptions op)) (terminal_type t1)
                  (opt_nsp (op_broadcastOptions op)) (terminal_payload w op t1)
     ++ commands_for (opt_topicArn (op_broadcastOptions op)) (terminal_type t2)
                     (opt_nsp (op_broadcastOptions op)) (terminal_payload w op t2))).
  { unfold bind. rewrite Hch. rewrite fire_run by done. rewrite fire_run by done.
    cbn [fst snd]. unfold sent_between.
    rewrite !publish_effect_calls, publish_effect_reads.
    rewrite !(terminal_payload_unchanged w w1 op) by done.
    by rewrite Hn, <- app_assoc. }
  cbv zeta. split_and!.
  - unfold bind. rewrite Hch. rewrite fire_run by done. by rewrite fire_run by done.
  - exact Hsent.
  - intros b1 b2 H1 H2. revert Hsent. unfold commands_for.
    destruct (terminal_payload_object w op t1) as [f1 Hf1].
    destruct (terminal_payload_object w op t2) as [f2 Hf2].
    rewrite Hf1 in H1 |- *. rewrite Hf2 in H2 |- *.
    by rewrite !encoded_object, H1, H2.
Qed.

(** X6. Every operator made by a chain of selectors on an emitter exists
    in the store it is returned in, with sets that hold no room twice and
    a flag object that holds no key twice; it has the client and the
    options of the emitter; making it calls nothing of the client and
    leaves every object of the store as it was.  Its room set, exclusion
    set and flags are those the chain names.  The selectors of the emitter
    are the chains of one selector. *)
Theorem operators_of_an_emitter_are_well_formed
    (e : Emitter) (ss : list Selector) (w : World) (room : RoomArg) (b : bool) :
  (∃ op w',
      operator_of e ss w = (Normal op, w') ∧
      well_formed w' op ∧ preserved w w' ∧ sent_between w w' [] ∧
      op_snsClient op = snsClient e ∧ op_broadcastOptions op = broadcastOptions e ∧
      set_at w' (rooms op) = selected_rooms ss ∧
      set_at w' (exceptRooms op) = selected_except ss ∧
      object_at w' (flags op) = selected_flags ss) ∧
  Emitter.to e room w = operator_of e [STo room] w ∧
  Emitter.in_ e room w = operator_of e [SIn room] w ∧
  Emitter.except e room w = operator_of e [SExcept room] w ∧
  Emitter.compress e b w = operator_of e [SCompress b] w ∧
  Emitter.volatile e w = operator_of e [SVolatile] w.
Proof.
  split.
  - destruct (operator_of_run e ss w)
      as (op & w' & Hop & Hwf & Hp & Hc & Hb & Hn & _ & _ & Hr & He & Hf).
    exists op, w'. unfold sent_between. rewrite app_nil_r. by split_and!.
  - destruct (new_default_run (snsClient e) (broadcastOptions e) w)
      as (op0 & w0 & Hnew & _).
    unfold Emitter.to, Emitter.in_, Emitter.except, Emitter.compress,
      Emitter.volatile, operator_of, bind.
    rewrite Hnew. cbn [chain select]. unfold bind, ret, BroadcastOperator.in_.
    rewrite !to_run, !except_run, !compress_run, !volatile_run. by split_and!.
Qed.

(** *** The order of the rooms *)

Lemma add_all_sublist rs s : ∃ k, add_all rs s = s ++ k ∧ k `sublist_of` rs.
Proof.
  revert s. induction rs as [|r rs IH]; intros s.
  - exists []. split; [by rewrite app_nil_r|constructor].
  - cbn [add_all fold_left]. fold (add_all rs (Set_add r s)).
    destruct (IH (Set_add r s)) as (k & Hk & Hsub). rewrite Hk.
    unfold Set_add. destruct (Set_has r s).
    + exists k. split; [done|by apply sublist_cons].
    + exists (r :: k). rewrite <- app_assoc. split; [done|by apply sublist_skip].
Qed.

Lemma add_all_order rs :
  NoDup (add_all rs []) ∧ (∀ x, x ∈ add_all rs [] ↔ x ∈ rs) ∧
  add_all rs [] `sublist_of` rs ∧ (NoDup rs → add_all rs [] = rs).
Proof.
  split_and!.
  - apply NoDup_add_all, NoDup_nil_2.
  - intros x. rewrite elem_of_add_all, elem_of_nil. tauto.
  - by destruct (add_all_sublist rs []) as (k & -> & Hk).
  - intros Hnd. by apply (add_all_fresh rs []).
Qed.

(** X7. The rooms of the operator of a chain on an emitter are the rooms
    named by its calls of [to] and [in], each once, in the order in which
    the calls named them: the room list is a subsequence of the list of
    all rooms named, and it is that list when no room was named twice.  The same holds for the exclusions
    and the calls of [except].  This is the order of the arrays in the
    payload. *)
Theorem rooms_keep_the_order_of_mention (e : Emitter) (ss : list Selector) (w : World) :
  ∃ op w',
    operator_of e ss w = (Normal op, w') ∧
    (NoDup (set_at w' (rooms op)) ∧
     (∀ x, x ∈ set_at w' (rooms op) ↔ x ∈ flat_map rooms_given ss) ∧
     set_at w' (rooms op) `sublist_of` flat_map rooms_given ss ∧
     (NoDup (flat_map rooms_given ss) →
      set_at w' (rooms op) = flat_map rooms_given ss)) ∧
    (NoDup (set_at w' (exceptRooms op)) ∧
     (∀ x, x ∈ set_at w' (exceptRooms op) ↔ x ∈ flat_map except_given ss) ∧
     set_at w' (exceptRooms op) `sublist_of` flat_map except_given ss ∧
     (NoDup (flat_map except_given ss) →
      set_at w' (exceptRooms op) = flat_map except_given ss)).
Proof.
  destruct (operator_of_run e ss w)
    as (op & w' & Hop & _ & _ & _ & _ & _ & _ & _ & Hr & He & _).
  exists op, w'. rewrite Hr, He. unfold selected_rooms, selected_except.
  split_and!; [done|apply add_all_order..].
Qed.

(** *** Namespaces *)

Lemma of_nsp e p :
  nsp (Emitter.of_ e p) = (if starts_with_slash p then p else ("/" ++ p)%string) ∧
  opt_nsp (broadcastOptions (Emitter.of_ e p)) = nsp (Emitter.of_ e p) ∧
  nsp (Emitter.of_ e p) ≠ EmptyString.
Proof.
  destruct p as [|c p]; [done|]. unfold Emitter.of_; simpl.
  by destruct (Ascii.eqb c "/"%char).
Qed.

(** X8. [of] replaces the namespace, it does not nest it: the emitter made
    by [of(q)] on an emitter made by [of(p)] is the one [of(q)] makes on
    the first emitter.  Prefixing is idempotent: [of] applied to the
    namespace of an emitter made by [of] gives that emitter again, a path
    that starts with ["/"] is kept as it is, and the empty path gives the
    root namespace ["/"]. *)
Theorem of_replaces_the_namespace (e : Emitter) (p q : string) :
  Emitter.of_ (Emitter.of_ e p) q = Emitter.of_ e q ∧
  Emitter.of_ e (nsp (Emitter.of_ e p)) = Emitter.of_ e p ∧
  (starts_with_slash p = true → nsp (Emitter.of_ e p) = p) ∧
  nsp (Emitter.of_ e EmptyString) = "/".
Proof.
  split_and!; try reflexivity.
  - destruct p as [|c p]; [reflexivity|]. unfold Emitter.of_; simpl.
    by destruct (Ascii.eqb c "/"%char) eqn:Hc; simpl; rewrite ?Hc.
  - intros Hp. destruct (of_nsp e p) as (-> & _). by rewrite Hp.
Qed.

(** X9. An emitter made by [of] never publishes without the attribute
    [nsp]: every command sent by a terminal method after any chain of
    selectors, and by [serverSideEmit], has the attribute [nsp] equal to
    the path with its leading ["/"], also for the empty path.  One command
    is sent when the method does not fail and the codec accepts the
    payload, and none otherwise. *)
Theorem emitters_made_by_of_always_send_nsp
    (e : Emitter) (p : string) (ss : list Selector) (t : Terminal)
    (args : list JSValue) (w : World) :
  let ns := if starts_with_slash p then p else ("/" ++ p)%string in
  ∃ cmds1 cmds2,
    sent_between w (call (Emitter.of_ e p) ss t w).2 cmds1 ∧
    sent_between w
      (Emitter.serverSideEmit encode MessageType (Emitter.of_ e p) args w).2 cmds2 ∧
    length cmds1 = (if terminal_fails t then 0
                    else if accepted (payload_of (Emitter.of_ e p) ss t)
                         then 1 else 0)%nat ∧
    length cmds2 = (if ends_in_function args then 0
                    else if accepted (JSObject [("packet", JSArray args)])
                         then 1 else 0)%nat ∧
    Forall (λ cmd, MessageAttributes cmd !! "nsp" = Some (string_attribute ns))
           (cmds1 ++ cmds2).
Proof.
  intros ns. destruct (of_nsp e p) as (Hns & Hopt & Hne).
  fold ns in Hns. rewrite Hns in Hopt, Hne.
  assert (Hattr : ∀ topic type data,
    Forall (λ cmd, MessageAttributes cmd !! "nsp" = Some (string_attribute ns))
           (commands_for topic type ns data)).
  { intros topic type data. unfold commands_for.
    destruct (encoded data); [|constructor]. apply Forall_singleton.
    rewrite published_nsp. by destruct (String.eqb_spec ns EmptyString). }
  exists (if terminal_fails t then [] else commands_of (Emitter.of_ e p) ss t).
  exists (if ends_in_function args then []
          else commands_for (opt_topicArn (broadcastOptions (Emitter.of_ e p)))
                  (SERVER_SIDE_EMIT MessageType) ns (Emitter.serverSideEmit_data args)).
  split_and!.
  - apply call_calls.
  - unfold sent_between. destruct (ends_in_function args) eqn:Hf.
    + rewrite serverSideEmit_ack_run by done. simpl. by rewrite app_nil_r.
    + rewrite serverSideEmit_run by done. cbn [snd].
      by rewrite publish_effect_calls, Hopt.
  - destruct (terminal_fails t); [done|]. apply commands_for_length.
  - destruct (ends_in_function args); [done|]. apply commands_for_length.
  - apply Forall_app. split.
    + destruct (terminal_fails t); [constructor|].
      unfold commands_of. rewrite Hopt. apply Hattr.
    + destruct (ends_in_function args); [constructor|]. apply Hattr.
Qed.

(** *** The attributes of a command *)

Lemma published_dom topic type nsp bytes :
  dom (MessageAttributes (published topic type nsp bytes))
  = (if String.eqb nsp EmptyString then ∅ else {["nsp"]})
      ∪ {["uid"]} ∪ match bytes with Some _ => {["data"]} | None => ∅ end.
Proof.
  unfold published; cbn [MessageAttributes].
  destruct bytes, (String.eqb nsp EmptyString);
    rewrite ?dom_insert_L, ?dom_singleton_L, ?dom_empty_L; set_solver.
Qed.

(** X10. For every namespace argument (a string or [undefined]), every
    [uid] argument, every payload and every discriminator (an integer of
    magnitude at most 2^53), [publish] settles normally.  If the payload
    is falsy, or truthy and the codec returns its bytes, the client is
    handed one command with the topic and the discriminator in decimal,
    whose attributes are [uid], always and always "emitter" whatever the
    [uid] argument, [nsp] exactly when the namespace is a non-empty
    string, [data] exactly when there are bytes, and no other attribute.
    If the payload is truthy and the codec throws, the client is handed
    nothing and what the codec threw is on the console. *)
Theorem publish_attribute_names
    (client : SNS) (topic : string) (type : Z) (ns uid : option string)
    (data : JSValue) (w : World) :
  (Z.abs type ≤ 2 ^ 53)%Z →
  let res := publish encode client topic type ns uid data w in
  let one_command (bytes : option (list Byte.byte)) :=
    ∃ cmd,
      sent_between w res.2 [cmd] ∧
      TopicArn cmd = topic ∧ Message cmd = String_of_number type ∧
      dom (MessageAttributes cmd)
        = (if truthy (string_or_undefined ns) then {["nsp"]} else ∅)
            ∪ {["uid"]} ∪ match bytes with Some _ => {["data"]} | None => ∅ end ∧
      MessageAttributes cmd !! "uid" = Some (string_attribute "emitter") ∧
      (truthy (string_or_undefined ns) = true →
       MessageAttributes cmd !! "nsp"
         = Some {| DataType := "String"; StringValue := ns; BinaryValue := None |}) ∧
      (∀ bs, bytes = Some bs →
             MessageAttributes cmd !! "data" = Some (binary_attribute bs)) in
  res.1 = Normal tt ∧
  (truthy data = false → one_command None) ∧
  (∀ bs, truthy data = true → encode data = Normal bs → one_command (Some bs)) ∧
  (∀ err, truthy data = true → encode data = Throw err →
          sent_between w res.2 [] ∧ console res.2 = console w ++ [err]).
Proof.
  intros _. cbv zeta.
  assert (Hrun : ∃ n, publish encode client topic type ns uid data w
                      = (Normal tt, publish_effect client topic type n data w) ∧
                      truthy (string_or_undefined ns) = negb (String.eqb n EmptyString) ∧
                      (truthy (string_or_undefined ns) = true → ns = Some n)).
  { destruct ns as [n|].
    - exists n. by rewrite publish_run.
    - exists EmptyString. by rewrite publish_undefined_run. }
  destruct Hrun as (n & -> & Hn & Hsome). cbn [fst snd].
  assert (Hone : ∀ bytes, encoded data = Normal bytes →
    ∃ cmd,
      sent_between w (publish_effect client topic type n data w) [cmd] ∧
      TopicArn cmd = topic ∧ Message cmd = String_of_number type ∧
      dom (MessageAttributes cmd)
        = (if truthy (string_or_undefined ns) then {["nsp"]} else ∅)
            ∪ {["uid"]} ∪ match bytes with Some _ => {["data"]} | None => ∅ end ∧
      MessageAttributes cmd !! "uid" = Some (string_attribute "emitter") ∧
      (truthy (string_or_undefined ns) = true →
       MessageAttributes cmd !! "nsp"
         = Some {| DataType := "String"; StringValue := ns; BinaryValue := None |}) ∧
      (∀ bs, bytes = Some bs →
             MessageAttributes cmd !! "data" = Some (binary_attribute bs))).
  { intros bytes He. unfold publish_effect. rewrite He.
    exists (published topic type n bytes). split_and!.
    - apply after_send_calls.
    - done.
    - done.
    - rewrite published_dom, Hn. by destruct (String.eqb n EmptyString).
    - apply published_uid.
    - intros Ht. rewrite published_nsp, (Hsome Ht). rewrite Hn in Ht.
      by destruct (String.eqb n EmptyString).
    - intros bs ->. apply published_data. }
  split_and!.
  - done.
  - intros Hd. apply (Hone None). unfold encoded. by rewrite Hd.
  - intros bs Hd He. apply (Hone (Some bs)). unfold encoded. by rewrite Hd, He.
  - intros err Hd He. unfold publish_effect, encoded. rewrite Hd, He.
    split; [|done]. unfold sent_between. simpl. by rewrite app_nil_r.
Qed.

(** *** The helper of the tests *)

Lemma partialDone_calls count callback n st :
  let st' := Nat.iter n (partialDone count callback) st in
  pd_i st' = (pd_i st + Z.of_nat n)%Z ∧
  pd_events st'
  = pd_events st
      ++ (if bool_decide (pd_i st < count ≤ pd_i st + Z.of_nat n)%Z
          then DoneCalled :: (if callback then [CallbackCalled] else [])
          else []).
Proof.
  induction n as [|n [IHi IHe]]; cbn zeta.
  - simpl. split; [lia|]. rewrite bool_decide_eq_false_2 by lia.
    by rewrite app_nil_r.
  - rewrite Nat.iter_succ. cbn zeta in IHi, IHe.
    unfold partialDone at 1 3. rewrite IHi.
    destruct (Z.eqb_spec (pd_i st + Z.of_nat n + 1) count) as [Heq|Hne];
      cbn [pd_i pd_events]; (split; [lia|]); rewrite IHe.
    + rewrite bool_decide_eq_false_2 by lia.
      rewrite bool_decide_eq_true_2 by lia. by rewrite app_nil_r.
    + case_bool_decide.
      * by rewrite bool_decide_eq_true_2 by lia.
      * by rewrite bool_decide_eq_false_2 by lia.
Qed.

(** X11. The closure made by [createPartialDone(count, done, callback)]
    calls [done] once, on its call number [count], followed by [callback]
    when one was given, and on no other call: after [n] calls [done] was
    called once if [count] is between 1 and [n], and never otherwise (so
    never for a [count] of zero or less). *)
Theorem createPartialDone_fires_once (count : Z) (callback : bool) (n : nat) :
  pd_events (Nat.iter n (partialDone count callback) createPartialDone)
  = if bool_decide (1 ≤ count ≤ Z.of_nat n)%Z
    then DoneCalled :: (if callback then [CallbackCalled] else [])
    else [].
Proof.
  destruct (partialDone_calls count callback n createPartialDone) as [_ ->].
  cbn [createPartialDone pd_i pd_events app].
  case_bool_decide; [by rewrite bool_decide_eq_true_2 by lia|].
  by rewrite bool_decide_eq_false_2 by lia.
Qed.

End Properties.

(** * The theorems at sample inputs *)

Lemma sample_operator_valid : valid sample_world sample_operator.
Proof.
  unfold valid. rewrite !elem_of_dom.
  split_and!; vm_compute; by eexists.
Qed.

Lemma hello_args_end_in_no_function : ∀ pre id, hello_args ≠ pre ++ [JSFunction id].
Proof.
  intros pre id Heq.
  assert (Hf : ends_in_function hello_args = true)
    by (apply ends_in_function_spec; by exists pre, id).
  discriminate Hf.
Qed.

(** [serverSideEmit("hello", "world", 1, "2")] under the numbering of
    socket.io-adapter sends the discriminator 9, once. *)
Lemma discriminators_follow_MessageType_witness :
  Set_has "hello" RESERVED_EVENTS = false ∧
  terminal_fails (TSocketsJoin (OneRoom "room3")) = false ∧
  (∀ pre id, hello_args ≠ pre ++ [JSFunction id]) ∧
  accepted sample_encode (JSObject [("packet", JSArray hello_args)]) = true ∧
  sends_typed sample_encode sample_world
    (Emitter.serverSideEmit sample_encode socket_io_adapter_MessageType
       sample_emitter hello_args sample_world).2 9
    (JSObject [("packet", JSArray hello_args)]).
Proof.
  split_and!; [reflexivity|reflexivity|exact hello_args_end_in_no_function|reflexivity|].
  apply (discriminators_follow_MessageType sample_encode
           socket_io_adapter_MessageType socket_io_parser_PacketType
           sample_world sample_operator sample_emitter [STo (OneRoom "room1")]
           (TSocketsJoin (OneRoom "room3")) "hello" hello_args (OneRoom "room3") None
           eq_refl eq_refl hello_args_end_in_no_function).
Defined.

(** C1 as stated fails: with the numbering of socket.io-adapter,
    [serverSideEmit("hello", "world", 1, "2")] sends one message, with the
    discriminator 9 and not the 6 of [RequestType.SERVER_SIDE_EMIT]. *)
Lemma serverSideEmit_does_not_send_6 :
  Message <$> sns_calls
    (Emitter.serverSideEmit sample_encode socket_io_adapter_MessageType
       (Emitter.new resolving_client sample_topic None) hello_args empty_world).2
    = ["9"] ∧
  String_of_number (RequestType.value RequestType.SERVER_SIDE_EMIT) = "6".
Proof. split; vm_compute; reflexivity. Qed.

(** With the numbering of socket.io-adapter the discriminator of [emit]
    is 3, the value of [RequestType.REMOTE_LEAVE]. *)
Lemma emit_sends_3 :
  Message <$> sns_calls
    (Emitter.emit sample_encode socket_io_adapter_MessageType
       socket_io_parser_PacketType
       (Emitter.new resolving_client sample_topic None) "hello" hello_args
       empty_world).2
    = ["3"] ∧
  String_of_number (RequestType.value RequestType.REMOTE_LEAVE) = "3".
Proof. split; vm_compute; reflexivity. Qed.

(** [socketsJoin("room3")] on the operator of
    [emitter.to("room1").except("room2").volatile]. *)
Lemma sockets_methods_send_rooms_and_except_witness :
  ∃ bytes cmd,
    sample_encode
      (JSObject [("opts", JSObject [("rooms", JSArray [JSString "room1"]);
                                    ("except", JSArray [JSString "room2"])]);
                 ("rooms", JSArray [JSString "room3"])]) = Normal bytes ∧
    sns_calls
      (BroadcastOperator.socketsJoin sample_encode socket_io_adapter_MessageType
         sample_operator (OneRoom "room3") sample_world).2
      = sns_calls sample_world ++ [cmd] ∧
    MessageAttributes cmd !! "data" = Some (binary_attribute bytes).
Proof.
  destruct (sockets_methods_send_rooms_and_except sample_encode
              socket_io_adapter_MessageType sample_world sample_operator
              (OneRoom "room3") None) as ((_ & Hsent & _) & _).
  destruct (Hsent [Byte.x02; Byte.x02] eq_refl) as (cmd & Hcalls & Hdata).
  exists [Byte.x02; Byte.x02], cmd. split_and!; [reflexivity|exact Hcalls|exact Hdata].
Defined.

(** C2 as stated fails: the operator of
    [emitter.to("room1").except("room2").volatile] has the flag
    [volatile], and the payload of its [socketsJoin("room3")] has the rooms
    and the exclusions under [opts], but no flags. *)
Lemma socketsJoin_payload_has_no_flags :
  object_at sample_world (flags sample_operator) = [("volatile", JSBoolean true)] ∧
  (BroadcastOperator.sockets_data sample_operator (OneRoom "room3") sample_world).1
    = Normal (JSObject [("opts", JSObject [("rooms", JSArray [JSString "room1"]);
                                           ("except", JSArray [JSString "room2"])]);
                        ("rooms", JSArray [JSString "room3"])]) ∧
  obj_get "flags" [("rooms", JSArray [JSString "room1"]);
                   ("except", JSArray [JSString "room2"])] = None.
Proof. split_and!; vm_compute; reflexivity. Qed.

(** A client that rejects every command: [emit] still resolves to [true],
    and the error is on the console. *)
Lemma publish_errors_are_swallowed_witness :
  Set_has "hello" RESERVED_EVENTS = false ∧
  terminal_fails (TDisconnectSockets (Some true)) = false ∧
  (∀ pre id, hello_args ≠ pre ++ [JSFunction id]) ∧
  settles sample_encode sample_world
    (BroadcastOperator.emit sample_encode socket_io_adapter_MessageType
       socket_io_parser_PacketType sample_operator "hello" hello_args sample_world)
    (op_snsClient sample_operator) true
    (emit_payload socket_io_parser_PacketType sample_world sample_operator
       "hello" hello_args).
Proof.
  split_and!; [reflexivity|reflexivity|exact hello_args_end_in_no_function|].
  apply (publish_errors_are_swallowed sample_encode socket_io_adapter_MessageType
           socket_io_parser_PacketType sample_world throwing_client sample_topic 3 "/"
           (Some UID) JSNull sample_operator sample_emitter [SVolatile]
           (TDisconnectSockets (Some true)) "hello" hello_args (OneRoom "room3")
           (Some true) eq_refl eq_refl hello_args_end_in_no_function).
Defined.

(** [emit("hello", () => {})]: the codec throws, [emit] still resolves to
    [true], the client is not called and the console has what the codec
    threw. *)
Lemma emit_with_function_argument_sends_nothing :
  (Emitter.emit sample_encode socket_io_adapter_MessageType
     socket_io_parser_PacketType sample_emitter "hello" [JSFunction 0] empty_world).1
    = Normal true ∧
  sns_calls
    (Emitter.emit sample_encode socket_io_adapter_MessageType
       socket_io_parser_PacketType sample_emitter "hello" [JSFunction 0]
       empty_world).2 = [] ∧
  console
    (Emitter.emit sample_encode socket_io_adapter_MessageType
       socket_io_parser_PacketType sample_emitter "hello" [JSFunction 0]
       empty_world).2 = [JSError "Could not encode"].
Proof. split_and!; vm_compute; reflexivity. Qed.

(** [emit("connect")] fails and [emit("hello", ...)] resolves. *)
Lemma reserved_names_fail_before_publish_witness :
  ("connect" ∈ reserved_names) ∧
  ("hello" ∉ reserved_names) ∧
  (Emitter.emit sample_encode socket_io_adapter_MessageType
     socket_io_parser_PacketType sample_emitter "connect" [] sample_world).1
    = Throw (JSError (dquote ++ "connect" ++ dquote ++ " is a reserved event name")%string) ∧
  sent_between sample_world
    (Emitter.emit sample_encode socket_io_adapter_MessageType
       socket_io_parser_PacketType sample_emitter "connect" [] sample_world).2 [] ∧
  (Emitter.emit sample_encode socket_io_adapter_MessageType
     socket_io_parser_PacketType sample_emitter "hello" hello_args sample_world).1
    = Normal true.
Proof.
  assert (Hin : "connect" ∈ reserved_names) by compute_done.
  assert (Hout : "hello" ∉ reserved_names) by compute_done.
  split_and!; [exact Hin|exact Hout|..].
  - apply (proj1 (reserved_names_fail_before_publish sample_encode
             socket_io_adapter_MessageType socket_io_parser_PacketType sample_world
             sample_operator sample_emitter "connect" []) Hin).
  - apply (proj1 (reserved_names_fail_before_publish sample_encode
             socket_io_adapter_MessageType socket_io_parser_PacketType sample_world
             sample_operator sample_emitter "connect" []) Hin).
  - apply (proj2 (reserved_names_fail_before_publish sample_encode
             socket_io_adapter_MessageType socket_io_parser_PacketType sample_world
             sample_operator sample_emitter "hello" hello_args) Hout).
Defined.

(** [serverSideEmit("hello", () => {})] fails, and
    [serverSideEmit("hello", "world", 1, "2")] resolves after one message. *)
Lemma serverSideEmit_rejects_trailing_function_witness :
  (∃ pre id, [JSString "hello"; JSFunction 0] = pre ++ [JSFunction id]) ∧
  (∀ pre id, hello_args ≠ pre ++ [JSFunction id]) ∧
  Emitter.serverSideEmit sample_encode socket_io_adapter_MessageType sample_emitter
    [JSString "hello"; JSFunction 0] sample_world
    = (Throw (JSError "Acknowledgements are not supported"), sample_world) ∧
  (Emitter.serverSideEmit sample_encode socket_io_adapter_MessageType sample_emitter
     hello_args sample_world).1 = Normal tt ∧
  ∃ cmd,
    sent_between sample_world
      (Emitter.serverSideEmit sample_encode socket_io_adapter_MessageType
         sample_emitter hello_args sample_world).2 [cmd] ∧
    MessageAttributes cmd !! "data" = Some (binary_attribute [Byte.x02]).
Proof.
  assert (Hf : ∃ pre id, [JSString "hello"; JSFunction 0] = pre ++ [JSFunction id])
    by (by exists [JSString "hello"], 0%nat).
  destruct (serverSideEmit_rejects_trailing_function sample_encode
              socket_io_adapter_MessageType sample_world sample_emitter
              [JSString "hello"; JSFunction 0]) as (_ & Hack & _).
  destruct (serverSideEmit_rejects_trailing_function sample_encode
              socket_io_adapter_MessageType sample_world sample_emitter hello_args)
    as (_ & _ & Hok).
  destruct (Hok hello_args_end_in_no_function) as (Hres & Hsent & _).
  split_and!; [exact Hf|exact hello_args_end_in_no_function|exact (Hack Hf)|exact Hres|].
  exact (Hsent [Byte.x02] eq_refl).
Defined.

(** C5 as stated fails: [serverSideEmit(() => {}, "x")] does not end in a
    function; it resolves, but the codec throws on the payload, so nothing
    is published and the console has what the codec threw. *)
Lemma serverSideEmit_with_inner_function_publishes_nothing :
  ends_in_function [JSFunction 0; JSString "x"] = false ∧
  (Emitter.serverSideEmit sample_encode socket_io_adapter_MessageType sample_emitter
     [JSFunction 0; JSString "x"] empty_world).1 = Normal tt ∧
  sns_calls
    (Emitter.serverSideEmit sample_encode socket_io_adapter_MessageType sample_emitter
       [JSFunction 0; JSString "x"] empty_world).2 = [] ∧
  console
    (Emitter.serverSideEmit sample_encode socket_io_adapter_MessageType sample_emitter
       [JSFunction 0; JSString "x"] empty_world).2 = [JSError "Could not encode"].
Proof. split_and!; vm_compute; reflexivity. Qed.

(** [emitter.to("room1").except("room2").volatile.emit("hello", ...)] *)
Lemma emit_publishes_packet_and_opts_witness :
  Set_has "hello" RESERVED_EVENTS = false ∧
  ∃ cmd,
    sent_between sample_world
      (BroadcastOperator.emit sample_encode socket_io_adapter_MessageType
         socket_io_parser_PacketType sample_operator "hello" hello_args sample_world).2
      [cmd] ∧
    Message cmd = "3" ∧
    MessageAttributes cmd !! "nsp" = Some (string_attribute "/") ∧
    MessageAttributes cmd !! "data" = Some (binary_attribute [Byte.x02; Byte.x02]).
Proof.
  split; [reflexivity|].
  destruct (emit_publishes_packet_and_opts sample_encode socket_io_adapter_MessageType
              socket_io_parser_PacketType sample_world sample_operator "hello"
              hello_args eq_refl) as (_ & _ & Hsent & _).
  destruct (Hsent [Byte.x02; Byte.x02] eq_refl) as (cmd & Hs & _ & Hm & Hn & _ & Hd).
  exists cmd. split_and!; [exact Hs|exact Hm| |exact Hd].
  apply Hn. discriminate.
Defined.

(** C6 as stated fails: an emitter constructed with the empty namespace
    sends [emit("hello", "world")] without the attribute [nsp]. *)
Lemma emit_in_empty_namespace_has_no_nsp :
  (λ cmd, MessageAttributes cmd !! "nsp")
    <$> sns_calls
          (Emitter.emit sample_encode socket_io_adapter_MessageType
             socket_io_parser_PacketType
             (Emitter.new resolving_client sample_topic (Some EmptyString))
             "hello" [JSString "world"] empty_world).2
  = [None].
Proof. vm_compute. reflexivity. Qed.

(** C7 as stated fails: the namespace of [new Emitter(client, topic,
    "custom")] is ["custom"], which does not start with ["/"]. *)
Lemma constructor_keeps_namespace_without_slash :
  nsp (Emitter.new resolving_client sample_topic (Some "custom")) = "custom" ∧
  starts_with_slash (nsp (Emitter.new resolving_client sample_topic (Some "custom")))
    = false.
Proof. split; reflexivity. Qed.

(** [to("room3")] on the operator of
    [emitter.to("room1").except("room2").volatile]. *)
Lemma selectors_leave_receiver_witness :
  valid sample_world sample_operator ∧
  returns_new sample_world sample_operator
    (BroadcastOperator.to sample_operator (OneRoom "room3") sample_world)
    (λ op' w', (rooms op' ∉ dom (set_heap sample_world)) ∧
               set_at w' (exceptRooms op') = set_at sample_world (exceptRooms sample_operator) ∧
               object_at w' (flags op') = object_at sample_world (flags sample_operator)).
Proof.
  split; [exact sample_operator_valid|].
  apply (selectors_leave_receiver sample_world sample_operator (OneRoom "room3") true
           sample_operator_valid).
Defined.

(** [emitter.to("room1").except("room2").volatile.emit("hello", ...)] *)
Lemma call_sends_command_of_chain_witness :
  terminal_fails (TEmit "hello" hello_args) = false ∧
  sent_between empty_world
    (call sample_encode socket_io_adapter_MessageType socket_io_parser_PacketType
       sample_emitter [STo (OneRoom "room1"); SExcept (OneRoom "room2"); SVolatile]
       (TEmit "hello" hello_args) empty_world).2
    [published sample_topic 3 "/" (Some [Byte.x02; Byte.x02])].
Proof.
  split; [reflexivity|].
  destruct (call_sends_command_of_chain sample_encode socket_io_adapter_MessageType
              socket_io_parser_PacketType sample_emitter
              [STo (OneRoom "room1"); SExcept (OneRoom "room2"); SVolatile]
              (TEmit "hello" hello_args) empty_world eq_refl)
    as (_ & Hsent & Hone & _).
  rewrite (Hone [Byte.x02; Byte.x02] eq_refl) in Hsent. exact Hsent.
Defined.

(** [to("room1").except("room2")] and [except("room2").to("room1")] *)
Lemma selectors_of_different_components_commute_witness :
  component (STo (OneRoom "room1")) ≠ component (SExcept (OneRoom "room2")) ∧
  sns_calls
    (call sample_encode socket_io_adapter_MessageType socket_io_parser_PacketType
       sample_emitter [STo (OneRoom "room1"); SExcept (OneRoom "room2")]
       (TEmit "hello" hello_args) empty_world).2
  = sns_calls
      (call sample_encode socket_io_adapter_MessageType socket_io_parser_PacketType
         sample_emitter [SExcept (OneRoom "room2"); STo (OneRoom "room1")]
         (TEmit "hello" hello_args) empty_world).2.
Proof.
  assert (Hc : component (STo (OneRoom "room1")) ≠ component (SExcept (OneRoom "room2")))
    by discriminate.
  split; [exact Hc|].
  apply (selectors_of_different_components_commute sample_encode
           socket_io_adapter_MessageType socket_io_parser_PacketType sample_emitter
           [] [] (STo (OneRoom "room1")) (SExcept (OneRoom "room2"))
           (TEmit "hello" hello_args) empty_world Hc).
Defined.

(** [emitter.compress(true).volatile.compress(false)] *)
Lemma flags_are_last_write_wins_witness :
  ∃ op w',
    operator_of sample_emitter [SCompress true; SVolatile; SCompress false] empty_world
      = (Normal op, w') ∧
    obj_get "compress" (object_at w' (flags op)) = Some (JSBoolean false) ∧
    obj_get "volatile" (object_at w' (flags op)) = Some (JSBoolean true).
Proof.
  destruct (flags_are_last_write_wins sample_emitter
              [SCompress true; SVolatile; SCompress false] empty_world)
    as (op & w' & Hop & _ & Hlast & Hvol & _).
  exists op, w'. split_and!; [exact Hop| |].
  - apply (Hlast [SCompress true; SVolatile] [] false eq_refl).
    intros b' Hb'. by apply elem_of_nil in Hb'.
  - apply Hvol. apply elem_of_cons. right. by left.
Defined.

(** The operator of [emitter.to("room1").except("room2").volatile], used
    for [compress(true)] and then for two terminal methods. *)
Lemma operator_can_be_used_again_witness :
  valid sample_world sample_operator ∧
  terminal_fails (TEmit "hello" hello_args) = false ∧
  terminal_fails (TSocketsJoin (OneRoom "room3")) = false ∧
  ((let* _ := chain sample_operator [SCompress true; STo (OneRoom "room4")] in
    let* _ := fire sample_encode socket_io_adapter_MessageType
                socket_io_parser_PacketType sample_operator (TEmit "hello" hello_args) in
    fire sample_encode socket_io_adapter_MessageType socket_io_parser_PacketType
      sample_operator (TSocketsJoin (OneRoom "room3"))) sample_world).1 = Normal tt.
Proof.
  split_and!; [exact sample_operator_valid|reflexivity|reflexivity|].
  apply (operator_can_be_used_again sample_encode socket_io_adapter_MessageType
           socket_io_parser_PacketType sample_operator
           [SCompress true; STo (OneRoom "room4")] (TEmit "hello" hello_args)
           (TSocketsJoin (OneRoom "room3")) sample_world sample_operator_valid
           eq_refl eq_refl).
Defined.

(** [emitter.to(["a", "b"]).in("c")] *)
Lemma rooms_keep_the_order_of_mention_witness :
  NoDup (flat_map rooms_given [STo (ManyRooms ["a"; "b"]); SIn (OneRoom "c")]) ∧
  ∃ op w',
    operator_of sample_emitter [STo (ManyRooms ["a"; "b"]); SIn (OneRoom "c")]
      empty_world = (Normal op, w') ∧
    set_at w' (rooms op) = ["a"; "b"; "c"].
Proof.
  assert (Hnd : NoDup (flat_map rooms_given
                         [STo (ManyRooms ["a"; "b"]); SIn (OneRoom "c")]))
    by compute_done.
  split; [exact Hnd|].
  destruct (rooms_keep_the_order_of_mention sample_emitter
              [STo (ManyRooms ["a"; "b"]); SIn (OneRoom "c")] empty_world)
    as (op & w' & Hop & (_ & _ & _ & Heq) & _).
  exists op, w'. split; [exact Hop|]. exact (Heq Hnd).
Defined.

(** [emitter.of("/custom")] *)
Lemma of_replaces_the_namespace_witness :
  starts_with_slash "/custom" = true ∧
  nsp (Emitter.of_ sample_emitter "/custom") = "/custom".
Proof.
  split; [reflexivity|].
  apply (of_replaces_the_namespace sample_emitter "/custom" "/other"). reflexivity.
Defined.

(** [publish] for the namespace ["/"] and an object as payload. *)
Lemma publish_attribute_names_witness :
  (Z.abs 9 ≤ 2 ^ 53)%Z ∧
  truthy (JSObject [("packet", JSArray hello_args)]) = true ∧
  sample_encode (JSObject [("packet", JSArray hello_args)]) = Normal [Byte.x02] ∧
  ∃ cmd,
    sent_between empty_world
      (publish sample_encode throwing_client sample_topic 9 (Some "/") None
         (JSObject [("packet", JSArray hello_args)]) empty_world).2 [cmd] ∧
    MessageAttributes cmd !! "nsp" = Some (string_attribute "/") ∧
    MessageAttributes cmd !! "data" = Some (binary_attribute [Byte.x02]).
Proof.
  assert (Hb : (Z.abs 9 ≤ 2 ^ 53)%Z) by (vm_compute; discriminate).
  split_and!; [exact Hb|reflexivity|reflexivity|].
  destruct (publish_attribute_names sample_encode throwing_client sample_topic 9
              (Some "/") None (JSObject [("packet", JSArray hello_args)]) empty_world Hb)
    as (_ & _ & Hone & _).
  destruct (Hone [Byte.x02] eq_refl eq_refl) as (cmd & Hs & _ & _ & _ & _ & Hn & Hd).
  exists cmd. split_and!; [exact Hs|exact (Hn eq_refl)|exact (Hd _ eq_refl)].
Defined.
